(** * The call-session handler of server.js, embedded and verified

    The file models the WebSocket route [/call] of [src/server.js]: the
    per-connection state ([conversation], [callActive]), the [message]
    handler with its five suspension points, and the helpers it calls
    ([isBusinessHours], [speechToText], [chatCompletion], the keyword
    regular expression).

    JavaScript runs one handler segment at a time: a handler runs from an
    [await] to the next one without interruption, and the order in which the
    awaited promises settle is chosen by the environment.  The embedding is
    therefore a step function over a session state whose labels are
    "a frame arrived" and "the promise awaited by pipeline [id] settled". *)

From Stdlib Require Import List NArith ZArith Bool String Ascii Lia.
Import ListNotations.

(* ------------------------------------------------------------------ *)
(** ** JavaScript strings and the string helpers the handler relies on *)

Module Js.

Local Open Scope N_scope.

(** A JavaScript string is a sequence of UTF-16 code units. *)
Definition JsString := list N.

(** The code units of an ASCII literal of the source. *)
Definition lit (s : string) : JsString := map N_of_ascii (list_ascii_of_string s).

(** A string is truthy when it is not empty. *)
Definition truthy (s : JsString) : bool :=
  match s with
  | [] => false
  | _ :: _ => true
  end.

(** [v || ''] for a value that is a string, [undefined] or [null]. *)
Definition orEmpty (v : option JsString) : JsString :=
  match v with
  | Some s => s
  | None => []
  end.

(** Truthiness of [process.env.X]: set, and not the empty string. *)
Definition isSet (v : option JsString) : bool := truthy (orEmpty v).

(** WhiteSpace and LineTerminator code units, as [String.prototype.trim]
    strips them. *)
Definition isWhiteSpace (c : N) : bool :=
  ((0x09 <=? c) && (c <=? 0x0D)) || (c =? 0x20) || (c =? 0xA0) || (c =? 0x1680)
  || ((0x2000 <=? c) && (c <=? 0x200A)) || (c =? 0x2028) || (c =? 0x2029)
  || (c =? 0x202F) || (c =? 0x205F) || (c =? 0x3000) || (c =? 0xFEFF).

Fixpoint trimStart (s : JsString) : JsString :=
  match s with
  | [] => []
  | c :: s' => if isWhiteSpace c then trimStart s' else s
  end.

Definition trimEnd (s : JsString) : JsString := rev (trimStart (rev s)).

Definition trim (s : JsString) : JsString := trimEnd (trimStart s).

(** [String.prototype.toLowerCase], one code unit at a time.  Besides the
    ASCII capitals, two code units lower to ASCII letters: KELVIN SIGN
    (U+212A) to [k], and LATIN CAPITAL LETTER I WITH DOT ABOVE (U+0130) to
    [i] followed by U+0307.  Every other code unit is lowered by the Unicode
    tables to code units above U+007F, which the regular expression below
    neither matches against a pattern letter nor counts as a word
    character; they are kept as they are. *)
Definition lowerUnit (c : N) : list N :=
  if (0x41 <=? c) && (c <=? 0x5A) then [c + 0x20]
  else if c =? 0x212A then [0x6B]
  else if c =? 0x130 then [0x69; 0x307]
  else [c].

Definition toLowerCase (s : JsString) : JsString := flat_map lowerUnit s.

(** The class [\w] of a regular expression without the [u] and [i] flags:
    [A-Za-z0-9_]. *)
Definition isWordChar (c : N) : bool :=
  ((0x61 <=? c) && (c <=? 0x7A)) || ((0x41 <=? c) && (c <=? 0x5A))
  || ((0x30 <=? c) && (c <=? 0x39)) || (c =? 0x5F).

(** [\w] at a position that may lie outside the string. *)
Definition isWordAt (c : option N) : bool :=
  match c with
  | Some u => isWordChar u
  | None => false
  end.

(** The assertion [\b] between the code unit before a position and the one
    after it. *)
Definition wordBoundary (before after : option N) : bool :=
  xorb (isWordAt before) (isWordAt after).

(** Matches the literal [w] at the head of [s]; the rest of [s] on success. *)
Fixpoint matchLiteral (w s : JsString) : option JsString :=
  match w with
  | [] => Some s
  | a :: w' =>
      match s with
      | [] => None
      | b :: s' => if a =? b then matchLiteral w' s' else None
      end
  end.

(** The code unit that precedes the position reached after reading [w]. *)
Definition unitBefore (before : option N) (w : JsString) : option N :=
  match rev w with
  | c :: _ => Some c
  | [] => before
  end.

(** One alternative [\bw\b] tried at a position of the subject; [before] is
    the code unit that precedes the position. *)
Definition matchWord (w : JsString) (before : option N) (s : JsString) : bool :=
  wordBoundary before (hd_error s)
  && match matchLiteral w s with
     | Some rest => wordBoundary (unitBefore before w) (hd_error rest)
     | None => false
     end.

Definition kwSchedule : JsString := lit "schedule".
Definition kwBook : JsString := lit "book".

(** [/\bschedule\b|\bbook\b/.test(s)] from the position whose predecessor is
    [before]: both alternatives are tried at each start position, left to
    right, the empty position at the end included. *)
Fixpoint testFrom (before : option N) (s : JsString) : bool :=
  matchWord kwSchedule before s || matchWord kwBook before s
  || match s with
     | [] => false
     | c :: s' => testFrom (Some c) s'
     end.

(** [/\bschedule\b|\bbook\b/.test(assistantText.toLowerCase())]. *)
Definition mentionsScheduling (assistantText : JsString) : bool :=
  testFrom None (toLowerCase assistantText).

(** [needle] occurs in [hay] as a substring. *)
Definition includes (needle hay : JsString) : Prop :=
  exists pre post, hay = pre ++ needle ++ post.

(** [w] occurs in [hay] as a whole word: the occurrence is neither preceded
    nor followed by a word character. *)
Definition includesWord (w hay : JsString) : Prop :=
  exists pre post,
    hay = pre ++ w ++ post
    /\ isWordAt (unitBefore None pre) = false
    /\ isWordAt (hd_error post) = false.

(** A keyword is a literal that begins and ends with a word character. *)
Definition wordLike (w : JsString) : Prop :=
  isWordAt (hd_error w) = true /\ isWordAt (unitBefore None w) = true.

(** An occurrence of [w] as a whole word in a subject preceded by [before]. *)
Definition wordFrom (before : option N) (w s : JsString) : Prop :=
  exists pre post,
    s = pre ++ w ++ post
    /\ isWordAt (unitBefore before pre) = false
    /\ isWordAt (hd_error post) = false.

(** The keyword test in the words of the specification: the text, compared
    case-insensitively, contains the substring "schedule" or "book". *)
Definition containsKeyword (assistantText : JsString) : Prop :=
  includes kwSchedule (toLowerCase assistantText)
  \/ includes kwBook (toLowerCase assistantText).

End Js.

(* ------------------------------------------------------------------ *)
(** ** Business hours *)

Module Policy.

Inductive Weekday := Sun | Mon | Tue | Wed | Thu | Fri | Sat.

(** The two parts that [Intl.DateTimeFormat] yields for a date in the
    America/Los_Angeles time zone: the short weekday and the hour. *)
Record LocalTime := { weekday : Weekday; hour : Z }.

Definition sameDay (a b : Weekday) : bool :=
  match a, b with
  | Sun, Sun | Mon, Mon | Tue, Tue | Wed, Wed | Thu, Thu | Fri, Fri | Sat, Sat => true
  | _, _ => false
  end.

(** [isBusinessHours(date)]:
    [!['Sat', 'Sun'].includes(day) && hour >= 8 && hour < 18]. *)
Definition isBusinessHours (date : LocalTime) : bool :=
  negb (existsb (sameDay (weekday date)) [Sat; Sun])
  && (hour date >=? 8)%Z && (hour date <? 18)%Z.

End Policy.

(* ------------------------------------------------------------------ *)
(** ** The session of one connection *)

Module Server.

Import Js Policy.

(** The variables of [process.env] that the route reads. *)
Record Env := {
  SYSTEM_PROMPT : option JsString;
  CALENDLY_LINK : option JsString;
  CALLER_PHONE : option JsString;
  TWILIO_NUMBER : option JsString
}.

Inductive Role := system | user | assistant.

Record Turn := { role : Role; content : JsString }.

(** [process.env.SYSTEM_PROMPT || 'You are the receptionist ...']. *)
Definition systemPrompt (env : Env) : JsString :=
  if isSet (SYSTEM_PROMPT env) then orEmpty (SYSTEM_PROMPT env)
  else lit "You are the receptionist for The Law Offices of Pritpal Singh.".

Definition afterHoursText : JsString :=
  lit "Our office hours are Monday through Friday, 8 AM to 6 PM Pacific. Please state your name, phone number, and a brief description of your matter, and we will return your call during the next business day.".

(** The body of the text message, with the link spliced in. *)
Definition smsBody (env : Env) : JsString :=
  lit "Please use this link to schedule your paid consultation: "
  ++ orEmpty (CALENDLY_LINK env).

Definition Buffer := list Byte.byte.

(** What the handler does with the text of an inbound frame.
    - [Unparsable]: [JSON.parse(raw.toString())] throws, or yields [null] so
      that [msg.event] throws; both happen before the [try] block.
    - [Media (Base64 s)]: [msg.event === 'media'] and [msg.media.payload] is
      the string [s]; [Buffer.from(s, 'base64')] decodes leniently and does
      not throw.
    - [Media (Undecodable m)]: [msg.event === 'media'] and reading
      [msg.media.payload] or [Buffer.from] throws an error of message [m]
      ([msg.media] missing, a payload that is no string), inside the [try].
    - [Stop]: [msg.event === 'stop'].
    - [Other]: any other value of [msg.event]. *)
Inductive Payload :=
| Base64 (s : JsString)
| Undecodable (message : JsString).

Inductive Frame :=
| Unparsable (message : JsString)
| Media (p : Payload)
| Stop
| Other.

(** The outbound frame [{event: 'media', media: {payload: pcm.toString('base64')}}]. *)
Inductive OutFrame := MediaOut (pcm : Buffer).

(** A promise settles with a value or rejects with an error, of which the
    handler reads the message only. *)
Inductive Result (A : Type) :=
| Ok (value : A)
| Throw (message : JsString).
Arguments Ok {A} value.
Arguments Throw {A} message.

(** How the promise of a remote call settles:
    - [Transcribed]: [openai.createTranscription], with [resp.data];
    - [Completed]: [openai.createChatCompletion], with
      [completion.data.choices[0].message.content];
    - [Dispatched]: [twilioClient.messages.create];
    - [Synthesized]: [openai.createSpeech] and [response.arrayBuffer()],
      which [textToSpeech] awaits one after the other without touching the
      session in between. *)
Inductive Settlement :=
| Transcribed (r : Result (option JsString))
| Completed (r : Result (option JsString))
| Dispatched (r : Result unit)
| Synthesized (r : Result Buffer).

(** The requests sent to the remote services, in the order they are made. *)
Inductive Call :=
| CallTranscription (payload : JsString)
| CallCompletion (messages : list Turn)
| CallSms (to : JsString) (from : option JsString) (body : JsString)
| CallSpeech (input : JsString).

(** The lines written with [console.error]. *)
Inductive LogLine :=
| ErrorProcessingMedia (message : JsString)
| FailedToSendSms (message : JsString).

(** The [await] at which a pipeline is suspended, with the local variables
    its continuation still reads. *)
Inductive Await :=
| AwaitTranscription
| AwaitAfterHoursSpeech
| AwaitCompletion
| AwaitSms (assistantText : JsString)
| AwaitSpeech.

(** The state of one connection.
    - [conversation], [callActive]: the two variables of the route.
    - [closed]: [connection.socket.close()] has been called.
    - [sent]: the frames passed to [connection.socket.send], oldest first.
    - [calls], [logged]: the remote requests made and the error lines
      written, oldest first.
    - [escaped]: the errors that left the handler uncaught (its promise
      rejected).
    - [pending]: the pipelines suspended at an [await], by media event.
    - [nextId]: the number of media events whose pipeline has begun. *)
Record Session := {
  conversation : list Turn;
  callActive : bool;
  closed : bool;
  sent : list OutFrame;
  calls : list Call;
  logged : list LogLine;
  escaped : list JsString;
  pending : list (nat * Await);
  nextId : nat
}.

(** The route's initialisation, at line 108. *)
Definition open (env : Env) : Session :=
  {| conversation := [{| role := system; content := systemPrompt env |}];
     callActive := true;
     closed := false;
     sent := [];
     calls := [];
     logged := [];
     escaped := [];
     pending := [];
     nextId := 0 |}.

Definition push (t : Turn) (s : Session) : Session :=
  {| conversation := conversation s ++ [t]; callActive := callActive s;
     closed := closed s; sent := sent s; calls := calls s; logged := logged s;
     escaped := escaped s; pending := pending s; nextId := nextId s |}.

Definition send (f : OutFrame) (s : Session) : Session :=
  {| conversation := conversation s; callActive := callActive s;
     closed := closed s; sent := sent s ++ [f]; calls := calls s;
     logged := logged s; escaped := escaped s; pending := pending s;
     nextId := nextId s |}.

Definition request (c : Call) (s : Session) : Session :=
  {| conversation := conversation s; callActive := callActive s;
     closed := closed s; sent := sent s; calls := calls s ++ [c];
     logged := logged s; escaped := escaped s; pending := pending s;
     nextId := nextId s |}.

Definition consoleError (l : LogLine) (s : Session) : Session :=
  {| conversation := conversation s; callActive := callActive s;
     closed := closed s; sent := sent s; calls := calls s;
     logged := logged s ++ [l]; escaped := escaped s; pending := pending s;
     nextId := nextId s |}.

Definition escape (message : JsString) (s : Session) : Session :=
  {| conversation := conversation s; callActive := callActive s;
     closed := closed s; sent := sent s; calls := calls s; logged := logged s;
     escaped := escaped s ++ [message]; pending := pending s;
     nextId := nextId s |}.

Definition hangUp (s : Session) : Session :=
  {| conversation := conversation s; callActive := false; closed := true;
     sent := sent s; calls := calls s; logged := logged s;
     escaped := escaped s; pending := pending s; nextId := nextId s |}.

Definition setPending (p : list (nat * Await)) (n : nat) (s : Session) : Session :=
  {| conversation := conversation s; callActive := callActive s;
     closed := closed s; sent := sent s; calls := calls s; logged := logged s;
     escaped := escaped s; pending := p; nextId := n |}.

Fixpoint awaiting (id : nat) (p : list (nat * Await)) : option Await :=
  match p with
  | [] => None
  | (i, k) :: p' => if Nat.eqb i id then Some k else awaiting id p'
  end.

(** A new pipeline reaches its first [await]. *)
Definition begin (k : Await) (s : Session) : Session :=
  setPending (pending s ++ [(nextId s, k)]) (S (nextId s)) s.

(** Pipeline [id] reaches its next [await]. *)
Definition suspend (id : nat) (k : Await) (s : Session) : Session :=
  setPending
    (map (fun e => if Nat.eqb (fst e) id then (id, k) else e) (pending s))
    (nextId s) s.

(** Pipeline [id] returns. *)
Definition finish (id : nat) (s : Session) : Session :=
  setPending (filter (fun e => negb (Nat.eqb (fst e) id)) (pending s))
    (nextId s) s.

(** [speechToText] once [createTranscription] has settled:
    [(resp.data || '').trim()]. *)
Definition speechToText (api : Result (option JsString)) : Result JsString :=
  match api with
  | Ok data => Ok (trim (orEmpty data))
  | Throw m => Throw m
  end.

(** [chatCompletion] once [createChatCompletion] has settled:
    [completion.data.choices[0].message.content || '']. *)
Definition chatCompletion (api : Result (option JsString)) : Result JsString :=
  match api with
  | Ok message => Ok (orEmpty message)
  | Throw m => Throw m
  end.

(** The condition of line 136. *)
Definition shouldSendLink (env : Env) (assistantText : JsString) : bool :=
  mentionsScheduling assistantText
  && isSet (CALENDLY_LINK env) && isSet (CALLER_PHONE env).

(** The handler from its entry to its first [await] or its return
    (lines 112 to 118 and 154 to 157). *)
Definition onMessage (s : Session) (raw : Frame) : Session :=
  if negb (callActive s) then s
  else
    match raw with
    | Unparsable m => escape m s
    | Media (Undecodable m) => consoleError (ErrorProcessingMedia m) s
    | Media (Base64 payload) =>
        begin AwaitTranscription (request (CallTranscription payload) s)
    | Stop => hangUp s
    | Other => s
    end.

(** Lines 118 to 132: from the result of [speechToText] to the [await] of
    [textToSpeech(afterHoursText)] or of [chatCompletion(conversation)]. *)
Definition afterTranscription (id : nat) (now : LocalTime)
    (api : Result (option JsString)) (s : Session) : Session :=
  match speechToText api with
  | Throw m => finish id (consoleError (ErrorProcessingMedia m) s)
  | Ok userText =>
      if negb (truthy userText) then finish id s
      else
        let s1 := push {| role := user; content := userText |} s in
        if negb (isBusinessHours now) then
          suspend id AwaitAfterHoursSpeech (request (CallSpeech afterHoursText) s1)
        else
          suspend id AwaitCompletion (request (CallCompletion (conversation s1)) s1)
  end.

(** Lines 125 to 128. *)
Definition afterAfterHoursSpeech (id : nat) (r : Result Buffer) (s : Session)
    : Session :=
  match r with
  | Throw m => finish id (consoleError (ErrorProcessingMedia m) s)
  | Ok pcm =>
      finish id
        (push {| role := assistant; content := afterHoursText |}
           (send (MediaOut pcm) s))
  end.

(** Lines 132 to 149: from the result of [chatCompletion] to the [await] of
    [twilioClient.messages.create] or of [textToSpeech(assistantText)]. *)
Definition afterCompletion (env : Env) (id : nat)
    (api : Result (option JsString)) (s : Session) : Session :=
  match chatCompletion api with
  | Throw m => finish id (consoleError (ErrorProcessingMedia m) s)
  | Ok assistantText =>
      let s1 := push {| role := assistant; content := assistantText |} s in
      if shouldSendLink env assistantText then
        suspend id (AwaitSms assistantText)
          (request
             (CallSms (orEmpty (CALLER_PHONE env)) (TWILIO_NUMBER env) (smsBody env))
             s1)
      else suspend id AwaitSpeech (request (CallSpeech assistantText) s1)
  end.

(** Lines 138 to 149: the inner [try] and [catch], then the call of
    [textToSpeech(assistantText)]. *)
Definition afterSms (id : nat) (assistantText : JsString) (r : Result unit)
    (s : Session) : Session :=
  let s1 :=
    match r with
    | Ok _ => s
    | Throw m => consoleError (FailedToSendSms m) s
    end in
  suspend id AwaitSpeech (request (CallSpeech assistantText) s1).

(** Lines 149 to 153. *)
Definition afterSpeech (id : nat) (r : Result Buffer) (s : Session) : Session :=
  match r with
  | Throw m => finish id (consoleError (ErrorProcessingMedia m) s)
  | Ok pcm => finish id (send (MediaOut pcm) s)
  end.

(** The promise awaited by pipeline [id] settles and the handler runs to its
    next [await] or to its end.  [now] is the reading of the clock during
    that segment.  No step exists when pipeline [id] is not suspended, or
    not at a call of that kind. *)
Definition resume (env : Env) (id : nat) (now : LocalTime) (r : Settlement)
    (s : Session) : option Session :=
  match awaiting id (pending s), r with
  | Some AwaitTranscription, Transcribed api => Some (afterTranscription id now api s)
  | Some AwaitAfterHoursSpeech, Synthesized pcm => Some (afterAfterHoursSpeech id pcm s)
  | Some AwaitCompletion, Completed api => Some (afterCompletion env id api s)
  | Some (AwaitSms assistantText), Dispatched d => Some (afterSms id assistantText d s)
  | Some AwaitSpeech, Synthesized pcm => Some (afterSpeech id pcm s)
  | _, _ => None
  end.

(** What can happen to a session. *)
Inductive Event :=
| Arrives (raw : Frame)
| Settles (id : nat) (now : LocalTime) (r : Settlement).

Definition step (env : Env) (s : Session) (e : Event) : option Session :=
  match e with
  | Arrives raw => Some (onMessage s raw)
  | Settles id now r => resume env id now r s
  end.

(** A sequence of events from state [s]. *)
Fixpoint run (env : Env) (s : Session) (es : list Event) : option Session :=
  match es with
  | [] => Some s
  | e :: es' =>
      match step env s e with
      | Some s' => run env s' es'
      | None => None
      end
  end.

(** A Turn that is not the system Turn. *)
Definition spoken (t : Turn) : Prop := role t <> system.

(** The number of text messages requested. *)
Definition dispatches (cs : list Call) : nat :=
  List.length (filter (fun c => match c with CallSms _ _ _ => true | _ => false end) cs).

(** The number of completions requested. *)
Definition completions (cs : list Call) : nat :=
  List.length (filter (fun c => match c with CallCompletion _ => true | _ => false end) cs).

(** Every frame of the run arrives while no pipeline is suspended. *)
Fixpoint arrivesIdle (env : Env) (s : Session) (es : list Event) : Prop :=
  match es with
  | [] => True
  | e :: es' =>
      match e with
      | Arrives _ => pending s = []
      | Settles _ _ _ => True
      end
      /\ match step env s e with
         | Some s' => arrivesIdle env s' es'
         | None => True
         end
  end.

End Server.

(* ------------------------------------------------------------------ *)
(** ** The call-setup endpoint *)

Module Gateway.

Import Js.

(** The two request headers that the [/twiml] route reads. *)
Record Headers := {
  x_forwarded_host : option JsString;
  host : option JsString
}.

(** [a || b] on header values. *)
Definition orElse (a b : option JsString) : option JsString :=
  if isSet a then a else b.

(** A value spliced into a template literal: [undefined] prints as the
    nine letters of its name. *)
Definition spliced (v : option JsString) : JsString :=
  match v with
  | Some s => s
  | None => lit "undefined"
  end.

Definition quote : JsString := [0x22%N].
Definition newline : JsString := [0x0A%N].

(** The template of line 102 up to [${host}], and after it. *)
Definition twimlHead : JsString :=
  lit "<?xml version=" ++ quote ++ lit "1.0" ++ quote
  ++ lit " encoding=" ++ quote ++ lit "UTF-8" ++ quote ++ lit "?>" ++ newline
  ++ lit "<Response>" ++ newline
  ++ lit "  <Say>This call may be recorded. Connecting you now.</Say>" ++ newline
  ++ lit "  <Connect><Stream url=" ++ quote ++ lit "wss://".

Definition twimlTail : JsString :=
  lit "/call" ++ quote ++ lit " /></Connect>" ++ newline ++ lit "</Response>".

(** [req.headers['x-forwarded-host'] || req.headers.host]. *)
Definition streamHost (h : Headers) : option JsString :=
  orElse (x_forwarded_host h) (host h).

Record Reply := { contentType : JsString; body : JsString }.

(** The handler of [/twiml], lines 100 to 103. *)
Definition twiml (h : Headers) : Reply :=
  {| contentType := lit "text/xml";
     body := twimlHead ++ spliced (streamHost h) ++ twimlTail |}.

End Gateway.

(* ------------------------------------------------------------------ *)
(** ** Counting what a session has done *)

Module Ledger.

Import Js Policy Server.

Definition isRole (r : Role) (t : Turn) : bool :=
  match r, role t with
  | system, system | user, user | assistant, assistant => true
  | _, _ => false
  end.

(** The number of Turns of role [r]. *)
Definition turnsOf (r : Role) (c : list Turn) : nat :=
  List.length (filter (isRole r) c).

(** The number of transcriptions requested. *)
Definition transcriptions (cs : list Call) : nat :=
  List.length
    (filter (fun c => match c with CallTranscription _ => true | _ => false end) cs).

Definition b2n (b : bool) : nat := if b then 1 else 0.

(** The number of suspended pipelines whose [await] satisfies [f]. *)
Definition suspendedAt (f : Await -> bool) (p : list (nat * Await)) : nat :=
  List.length (filter (fun e => f (snd e)) p).

(** The pipeline has not pushed its user Turn yet. *)
Definition listening (k : Await) : bool :=
  match k with
  | AwaitTranscription => true
  | _ => false
  end.

(** The pipeline has pushed its user Turn and not yet an assistant Turn. *)
Definition answering (k : Await) : bool :=
  match k with
  | AwaitCompletion | AwaitAfterHoursSpeech => true
  | _ => false
  end.

(** The pipeline has pushed its assistant Turn and not yet sent its audio. *)
Definition speaking (k : Await) : bool :=
  match k with
  | AwaitSms _ | AwaitSpeech => true
  | _ => false
  end.

(** The bookkeeping that every reachable session satisfies. *)
Record Balanced (s : Session) : Prop := {
  ids_distinct : NoDup (map fst (pending s));
  ids_issued : Forall (fun i => i < nextId s) (map fst (pending s));
  ids_counted : nextId s = transcriptions (calls s);
  frames_answer_turns :
    List.length (sent s) + suspendedAt speaking (pending s)
    <= turnsOf assistant (conversation s);
  replies_answer_users :
    turnsOf assistant (conversation s) + suspendedAt answering (pending s)
    <= turnsOf user (conversation s);
  users_answer_frames :
    turnsOf user (conversation s) + suspendedAt listening (pending s) <= nextId s
}.

(** The frames that a sequence of events makes the session send: the audio
    of every synthesis that succeeds. *)
Definition audioOf (es : list Event) : list OutFrame :=
  flat_map
    (fun e =>
       match e with
       | Settles _ _ (Synthesized (Ok pcm)) => [MediaOut pcm]
       | _ => []
       end) es.



(** A text that [trim] leaves as it is and that is not empty. *)
Definition trimmed (t : JsString) : Prop := truthy t = true /\ trim t = t.

(** No leading white space. *)
Definition startsClean (t : JsString) : Prop :=
  match t with
  | [] => True
  | c :: _ => isWhiteSpace c = false
  end.


(** A text message goes to the configured contact, from the configured
    number, with the configured link in the fixed body. *)
Definition wellAddressed (env : Env) (call : Call) : Prop :=
  match call with
  | CallSms to from body =>
      truthy to = true
      /\ CALLER_PHONE env = Some to
      /\ from = TWILIO_NUMBER env
      /\ exists link,
           CALENDLY_LINK env = Some link /\ truthy link = true
           /\ body
              = lit "Please use this link to schedule your paid consultation: "
                ++ link
  | _ => True
  end.

(** A completion is requested together with a user Turn, a text message
    together with an assistant Turn. *)
Definition Paired (s : Session) : Prop :=
  completions (calls s) <= turnsOf user (conversation s)
  /\ dispatches (calls s) <= turnsOf assistant (conversation s).

(** The user Turns hold trimmed, non-empty text. *)
Definition UsersTrimmed (s : Session) : Prop :=
  Forall (fun t => role t = user -> trimmed (content t)) (conversation s).


(** The settlement with which the call awaited at [k] fails. *)
Definition failure (k : Await) (m : JsString) : Settlement :=
  match k with
  | AwaitTranscription => Transcribed (Throw m)
  | AwaitAfterHoursSpeech | AwaitSpeech => Synthesized (Throw m)
  | AwaitCompletion => Completed (Throw m)
  | AwaitSms _ => Dispatched (Throw m)
  end.

End Ledger.

(* ------------------------------------------------------------------ *)
(** ** A concrete deployment, used to run the handler *)

Module Scenario.

Import Js Policy Server.

(** Both follow-up settings are present; the system prompt is the default. *)
Definition env : Env :=
  {| SYSTEM_PROMPT := None;
     CALENDLY_LINK := Some (lit "https://calendly.com/office/consultation");
     CALLER_PHONE := Some (lit "+15550100");
     TWILIO_NUMBER := Some (lit "+15550199") |}.


Definition tuesdayNoon : LocalTime := {| weekday := Tue; hour := 12 |}.

Definition audio1 : Frame := Media (Base64 (lit "UklGRg==")).
Definition audio2 : Frame := Media (Base64 (lit "AAEC")).

Definition hello : JsString := lit "My name is Alice, I need a consultation".

Definition pcm : Buffer := [Byte.x01; Byte.x02].

Definition reply : JsString := lit "Let's schedule a consultation for you".

(** A pipeline awaits the completion engine, during business hours. *)
Definition awaitingCompletion : Session :=
  afterTranscription 0 tuesdayNoon (Ok (Some hello)) (onMessage (open env) audio1).

Definition smallTalk : JsString := lit "How can I help you today?".

(** Two frames arrive back to back. *)
Definition burst : list Event := [Arrives audio1; Arrives audio2].

(** One frame at a time: the second arrives when the first pipeline is over. *)
Definition paced : list Event :=
  [Arrives audio1;
   Settles 0 tuesdayNoon (Transcribed (Ok (Some hello)));
   Settles 0 tuesdayNoon (Completed (Ok (Some smallTalk)));
   Settles 0 tuesdayNoon (Synthesized (Ok pcm));
   Arrives audio2].

(** The caller hangs up while the first transcription is under way. *)
Definition hungUp : Session := onMessage (onMessage (open env) audio1) Stop.


(** A whole call: one event, answered with a reply that mentions
    scheduling, the text message delivered and the reply spoken. *)
Definition answered : list Event :=
  [Arrives audio1;
   Settles 0 tuesdayNoon (Transcribed (Ok (Some hello)));
   Settles 0 tuesdayNoon (Completed (Ok (Some reply)));
   Settles 0 tuesdayNoon (Dispatched (Ok tt));
   Settles 0 tuesdayNoon (Synthesized (Ok pcm))].

Definition answeredSession : Session :=
  afterSpeech 0 (Ok pcm)
    (afterSms 0 reply (Ok tt)
       (afterCompletion env 0 (Ok (Some reply)) awaitingCompletion)).

End Scenario.

(* ------------------------------------------------------------------ *)
(** ** Facts about the keyword regular expression *)

Module JsFacts.

Import Js.
Local Open Scope N_scope.

Lemma matchLiteral_app (w rest : JsString) : matchLiteral w (w ++ rest) = Some rest.
Proof.
  induction w as [|a w IH]; simpl; [reflexivity|].
  now rewrite N.eqb_refl.
Qed.

Lemma matchLiteral_inv (w s rest : JsString) :
  matchLiteral w s = Some rest -> s = w ++ rest.
Proof.
  revert s; induction w as [|a w IH]; intros s H; simpl in H.
  - now inversion H.
  - destruct s as [|b s]; [discriminate|].
    destruct (N.eqb_spec a b) as [->|]; [|discriminate].
    simpl; f_equal; auto.
Qed.

Lemma unitBefore_cons (before : option N) (c : N) (pre : JsString) :
  unitBefore before (c :: pre) = unitBefore (Some c) pre.
Proof.
  unfold unitBefore; simpl.
  destruct (rev pre) as [|d r]; reflexivity.
Qed.

Lemma wordLike_unitBefore (w : JsString) (before : option N) :
  wordLike w -> unitBefore before w = unitBefore None w.
Proof.
  intros [_ H]; unfold unitBefore in *.
  destruct (rev w); [discriminate H | reflexivity].
Qed.

Lemma wordLike_hd (w rest : JsString) :
  wordLike w -> hd_error (w ++ rest) = hd_error w.
Proof.
  intros [H _]; destruct w; [discriminate H | reflexivity].
Qed.

(** [\bw\b] matches at a position exactly when [w] is read there and neither
    neighbour is a word character. *)
Lemma matchWord_spec (w : JsString) (before : option N) (s : JsString) :
  wordLike w ->
  matchWord w before s = true <->
  exists rest, s = w ++ rest
               /\ isWordAt before = false /\ isWordAt (hd_error rest) = false.
Proof.
  intros Hw; unfold matchWord, wordBoundary; split.
  - intros H; apply andb_prop in H as [Hb Hm].
    destruct (matchLiteral w s) as [rest|] eqn:E; [|discriminate].
    apply matchLiteral_inv in E; subst s.
    rewrite (wordLike_hd _ _ Hw) in Hb.
    rewrite (wordLike_unitBefore _ before Hw) in Hm.
    destruct Hw as [H1 H2]; rewrite H1 in Hb; rewrite H2 in Hm.
    exists rest; repeat split.
    + now destruct (isWordAt before).
    + now destruct (isWordAt (hd_error rest)).
  - intros (rest & -> & Hb & Ha).
    rewrite matchLiteral_app, (wordLike_hd _ _ Hw), (wordLike_unitBefore _ before Hw).
    destruct Hw as [H1 H2]; rewrite H1, H2, Hb, Ha; reflexivity.
Qed.

Lemma kwSchedule_wordLike : wordLike kwSchedule.
Proof. split; reflexivity. Qed.

Lemma kwBook_wordLike : wordLike kwBook.
Proof. split; reflexivity. Qed.

Lemma wordFrom_here (before : option N) (w s : JsString) :
  wordLike w -> matchWord w before s = true -> wordFrom before w s.
Proof.
  intros Hw H; apply (matchWord_spec w before s Hw) in H as (rest & -> & Hb & Ha).
  exists [], rest; auto.
Qed.

Lemma wordFrom_later (before : option N) (c : N) (w s : JsString) :
  wordFrom (Some c) w s -> wordFrom before w (c :: s).
Proof.
  intros (pre & post & -> & Hb & Ha).
  exists (c :: pre), post; rewrite unitBefore_cons; auto.
Qed.

Lemma testFrom_sound (s : JsString) : forall before,
  testFrom before s = true ->
  wordFrom before kwSchedule s \/ wordFrom before kwBook s.
Proof.
  induction s as [|c s IH]; intros before H; simpl in H;
    apply orb_prop in H as [H|H].
  - apply orb_prop in H as [H|H];
      [left; apply wordFrom_here | right; apply wordFrom_here];
      auto using kwSchedule_wordLike, kwBook_wordLike.
  - discriminate.
  - apply orb_prop in H as [H|H];
      [left; apply wordFrom_here | right; apply wordFrom_here];
      auto using kwSchedule_wordLike, kwBook_wordLike.
  - destruct (IH _ H); [left | right]; now apply wordFrom_later.
Qed.

Lemma testFrom_later (before : option N) (c : N) (s : JsString) :
  testFrom (Some c) s = true -> testFrom before (c :: s) = true.
Proof.
  intros H; change (testFrom before (c :: s)) with
    (matchWord kwSchedule before (c :: s) || matchWord kwBook before (c :: s)
     || testFrom (Some c) s)%bool.
  rewrite H; apply orb_true_r.
Qed.

Lemma testFrom_here (before : option N) (s : JsString) :
  (matchWord kwSchedule before s || matchWord kwBook before s)%bool = true ->
  testFrom before s = true.
Proof.
  intros H; destruct s; simpl; simpl in H; rewrite H; reflexivity.
Qed.

Lemma testFrom_complete (w : JsString) (pre : JsString) : forall before s,
  w = kwSchedule \/ w = kwBook ->
  (exists post, s = pre ++ w ++ post
                /\ isWordAt (unitBefore before pre) = false
                /\ isWordAt (hd_error post) = false) ->
  testFrom before s = true.
Proof.
  induction pre as [|c pre IH]; intros before s Hw (post & -> & Hb & Ha).
  - apply testFrom_here.
    assert (M : matchWord w before (w ++ post) = true).
    { apply matchWord_spec;
        [destruct Hw; subst; auto using kwSchedule_wordLike, kwBook_wordLike|].
      exists post; auto. }
    simpl app; destruct Hw; subst w; rewrite M; auto using orb_true_r.
  - simpl app; apply testFrom_later, IH; auto.
    exists post; rewrite unitBefore_cons in Hb; auto.
Qed.

(** The regular expression of line 136 accepts a text exactly when its
    lower-cased form has "schedule" or "book" as a whole word. *)
Lemma mentionsScheduling_spec (text : JsString) :
  mentionsScheduling text = true <->
  includesWord kwSchedule (toLowerCase text) \/ includesWord kwBook (toLowerCase text).
Proof.
  unfold mentionsScheduling; split.
  - intros H; apply testFrom_sound in H; exact H.
  - intros [(pre & post & H)|(pre & post & H)].
    + apply (testFrom_complete kwSchedule pre); eauto.
    + apply (testFrom_complete kwBook pre); eauto.
Qed.

End JsFacts.

(* ------------------------------------------------------------------ *)
(** ** Facts about the session *)

Module ServerFacts.

Import Js Policy Server.

(** *** The table of suspended pipelines *)

Lemma awaiting_map (id : nat) (k k0 : Await) (p : list (nat * Await)) :
  awaiting id p = Some k0 ->
  awaiting id (map (fun e => if Nat.eqb (fst e) id then (id, k) else e) p) = Some k.
Proof.
  induction p as [|[i a] p IH]; simpl; [discriminate|].
  destruct (Nat.eqb i id) eqn:E; simpl.
  - now rewrite Nat.eqb_refl.
  - rewrite E; exact IH.
Qed.

Lemma awaiting_filter (id : nat) (p : list (nat * Await)) :
  awaiting id (filter (fun e => negb (Nat.eqb (fst e) id)) p) = None.
Proof.
  induction p as [|[i a] p IH]; simpl; [reflexivity|].
  destruct (Nat.eqb i id) eqn:E; simpl; [exact IH|].
  now rewrite E.
Qed.

Lemma awaiting_suspend (id : nat) (k k0 : Await) (s : Session) :
  awaiting id (pending s) = Some k0 ->
  awaiting id (pending (suspend id k s)) = Some k.
Proof. apply awaiting_map. Qed.

(** *** Counting the requests *)

Lemma dispatches_sms (cs : list Call) (to : JsString) (from : option JsString)
    (body : JsString) :
  dispatches (cs ++ [CallSms to from body]) = S (dispatches cs).
Proof. unfold dispatches; rewrite filter_app, length_app; simpl; lia. Qed.

Lemma dispatches_speech (cs : list Call) (input : JsString) :
  dispatches (cs ++ [CallSpeech input]) = dispatches cs.
Proof. unfold dispatches; rewrite filter_app, length_app; simpl; lia. Qed.


(** *** One segment of the handler at a time *)

(** A settlement of the awaited kind always has a continuation. *)
Ltac resumes H := unfold resume; rewrite H; eexists; split; [reflexivity|].

Lemma resume_pending_le (env : Env) (id : nat) (now : LocalTime) (r : Settlement)
    (s s' : Session) :
  resume env id now r s = Some s' ->
  (List.length (pending s') <= List.length (pending s))%nat.
Proof.
  unfold resume; intros H.
  destruct (awaiting id (pending s)) as [[| | | |]|]; destruct r as [r|r|r|r];
    try discriminate; injection H as <-.
  - unfold afterTranscription.
    destruct (speechToText r) as [t|m];
      [destruct (negb (truthy t)); [|destruct (negb (isBusinessHours now))]|];
      simpl; rewrite ?length_map; auto using filter_length_le.
  - unfold afterAfterHoursSpeech; destruct r; simpl; apply filter_length_le.
  - unfold afterCompletion.
    destruct (chatCompletion r) as [t|m]; [destruct (shouldSendLink env t)|];
      simpl; rewrite ?length_map; auto using filter_length_le.
  - unfold afterSms; destruct r; simpl; rewrite length_map; apply Nat.le_refl.
  - unfold afterSpeech; destruct r; simpl; apply filter_length_le.
Qed.

Lemma resume_callActive (env : Env) (id : nat) (now : LocalTime) (r : Settlement)
    (s s' : Session) :
  resume env id now r s = Some s' -> callActive s' = callActive s.
Proof.
  unfold resume; intros H.
  destruct (awaiting id (pending s)) as [[| | | |]|]; destruct r as [r|r|r|r];
    try discriminate; injection H as <-.
  - unfold afterTranscription.
    destruct (speechToText r) as [t|m];
      [destruct (negb (truthy t)); [|destruct (negb (isBusinessHours now))]|];
      reflexivity.
  - unfold afterAfterHoursSpeech; destruct r; reflexivity.
  - unfold afterCompletion.
    destruct (chatCompletion r) as [t|m]; [destruct (shouldSendLink env t)|];
      reflexivity.
  - unfold afterSms; destruct r; reflexivity.
  - unfold afterSpeech; destruct r; reflexivity.
Qed.

(** *** Empty transcriptions and empty replies *)

(** C8: when the transcription is empty once trimmed, the pipeline returns
    at line 119: no Turn is appended, no frame is sent, nothing is logged
    and no error escapes, no remote call is made, and [callActive] keeps its
    value. *)
Theorem C8_empty_transcription_dropped_silently (env : Env) (id : nat)
    (now : LocalTime) (data : option JsString) (s : Session) :
  awaiting id (pending s) = Some AwaitTranscription ->
  trim (orEmpty data) = [] ->
  exists s', resume env id now (Transcribed (Ok data)) s = Some s'
    /\ conversation s' = conversation s
    /\ sent s' = sent s
    /\ logged s' = logged s
    /\ escaped s' = escaped s
    /\ calls s' = calls s
    /\ callActive s' = callActive s
    /\ awaiting id (pending s') = None.
Proof.
  intros Hk Hempty; resumes Hk.
  unfold afterTranscription, speechToText; rewrite Hempty; simpl.
  repeat split; apply awaiting_filter.
Qed.

(** A transcription made of two spaces, on the first event of a call. *)
Lemma C8_whitespace_only_transcription :
  exists s',
    resume Scenario.env 0 Scenario.tuesdayNoon
      (Transcribed (Ok (Some (lit "  ")))) (onMessage (open Scenario.env) Scenario.audio1)
    = Some s'
    /\ conversation s' = conversation (onMessage (open Scenario.env) Scenario.audio1)
    /\ sent s' = sent (onMessage (open Scenario.env) Scenario.audio1)
    /\ logged s' = logged (onMessage (open Scenario.env) Scenario.audio1)
    /\ escaped s' = escaped (onMessage (open Scenario.env) Scenario.audio1)
    /\ calls s' = calls (onMessage (open Scenario.env) Scenario.audio1)
    /\ callActive s' = callActive (onMessage (open Scenario.env) Scenario.audio1)
    /\ awaiting 0 (pending s') = None.
Proof.
  exact (C8_empty_transcription_dropped_silently Scenario.env 0 Scenario.tuesdayNoon
           (Some (lit "  ")) (onMessage (open Scenario.env) Scenario.audio1)
           eq_refl eq_refl).
Defined.

(** C10: when the completion engine answers with an empty (or missing)
    content, the pipeline appends an assistant Turn of empty content, the
    keyword test fails on it so that no text message is requested, speech is
    requested for the empty text, and the audio it yields is sent. *)
Theorem C10_empty_reply_still_spoken (env : Env) (id : nat) (now : LocalTime)
    (message : option JsString) (s : Session) :
  awaiting id (pending s) = Some AwaitCompletion ->
  orEmpty message = [] ->
  exists s1, resume env id now (Completed (Ok message)) s = Some s1
    /\ conversation s1 = conversation s ++ [{| role := assistant; content := [] |}]
    /\ mentionsScheduling [] = false
    /\ calls s1 = calls s ++ [CallSpeech []]
    /\ awaiting id (pending s1) = Some AwaitSpeech
    /\ forall (now' : LocalTime) (pcm : Buffer),
         exists s2, resume env id now' (Synthesized (Ok pcm)) s1 = Some s2
           /\ sent s2 = sent s ++ [MediaOut pcm]
           /\ conversation s2 = conversation s1
           /\ awaiting id (pending s2) = None.
Proof.
  intros Hk Hempty; resumes Hk.
  unfold afterCompletion, chatCompletion; rewrite Hempty.
  change (shouldSendLink env []) with false; cbv zeta iota.
  assert (Hs : awaiting id
                 (pending (suspend id AwaitSpeech
                    (request (CallSpeech [])
                       (push {| role := assistant; content := [] |} s))))
               = Some AwaitSpeech)
    by (apply awaiting_suspend with (k0 := AwaitCompletion); exact Hk).
  repeat split; try exact Hs.
  intros now' pcm; resumes Hs.
  repeat split; apply awaiting_filter.
Qed.

(** An empty reply to the first event of a call. *)
Lemma C10_empty_reply_run :
  exists s1,
    resume Scenario.env 0 Scenario.tuesdayNoon (Completed (Ok (Some [])))
      Scenario.awaitingCompletion = Some s1
    /\ conversation s1
       = conversation Scenario.awaitingCompletion
         ++ [{| role := assistant; content := [] |}]
    /\ mentionsScheduling [] = false
    /\ calls s1 = calls Scenario.awaitingCompletion ++ [CallSpeech []]
    /\ awaiting 0 (pending s1) = Some AwaitSpeech
    /\ forall (now' : LocalTime) (pcm : Buffer),
         exists s2, resume Scenario.env 0 now' (Synthesized (Ok pcm)) s1 = Some s2
           /\ sent s2 = sent Scenario.awaitingCompletion ++ [MediaOut pcm]
           /\ conversation s2 = conversation s1
           /\ awaiting 0 (pending s2) = None.
Proof.
  exact (C10_empty_reply_still_spoken Scenario.env 0 Scenario.tuesdayNoon (Some [])
           Scenario.awaitingCompletion eq_refl eq_refl).
Defined.

(** *** A completion that fails *)

(** The claim of C5 fails on the code: the user Turn is pushed at line 120,
    before the completion engine is called at line 132, and the [catch] of
    line 151 only logs.  After the failed event the transcript holds one
    Turn more than before it. *)
Lemma C5_user_turn_survives_failed_completion :
  exists s,
    run Scenario.env (open Scenario.env)
      [Arrives Scenario.audio1;
       Settles 0 Scenario.tuesdayNoon (Transcribed (Ok (Some Scenario.hello)));
       Settles 0 Scenario.tuesdayNoon (Completed (Throw (lit "Request failed with status code 503")))]
    = Some s
    /\ conversation s
       = conversation (open Scenario.env) ++ [{| role := user; content := Scenario.hello |}]
    /\ conversation s <> conversation (open Scenario.env).
Proof.
  eexists; split; [reflexivity|]; split; [reflexivity|discriminate].
Qed.

(** C5, amended: during business hours an event with a non-empty
    transcription appends its user Turn and calls the completion engine;
    when that call fails, the error is logged, no assistant Turn is
    appended, no frame is sent, no further remote call is made,
    [callActive] keeps its value and the pipeline ends.  The user Turn stays
    in the transcript. *)
Theorem C5_failed_completion_keeps_user_turn (env : Env) (id : nat)
    (now : LocalTime) (data : option JsString) (s : Session) :
  awaiting id (pending s) = Some AwaitTranscription ->
  truthy (trim (orEmpty data)) = true ->
  isBusinessHours now = true ->
  exists s1, resume env id now (Transcribed (Ok data)) s = Some s1
    /\ conversation s1
       = conversation s ++ [{| role := user; content := trim (orEmpty data) |}]
    /\ calls s1 = calls s ++ [CallCompletion (conversation s1)]
    /\ sent s1 = sent s
    /\ awaiting id (pending s1) = Some AwaitCompletion
    /\ forall (t : Session) (now' : LocalTime) (m : JsString),
         awaiting id (pending t) = Some AwaitCompletion ->
         exists t', resume env id now' (Completed (Throw m)) t = Some t'
           /\ conversation t' = conversation t
           /\ sent t' = sent t
           /\ calls t' = calls t
           /\ logged t' = logged t ++ [ErrorProcessingMedia m]
           /\ callActive t' = callActive t
           /\ awaiting id (pending t') = None.
Proof.
  intros Hk Htext Hopen; resumes Hk.
  unfold afterTranscription, speechToText; rewrite Htext, Hopen; cbv zeta iota; simpl negb; cbv iota.
  repeat split.
  - apply awaiting_suspend with (k0 := AwaitTranscription); exact Hk.
  - intros t now' m Ht; resumes Ht.
    repeat split; apply awaiting_filter.
Qed.

(** The first event of a call, whose completion request fails. *)
Lemma C5_failed_completion_run :
  exists s1 s2,
    resume Scenario.env 0 Scenario.tuesdayNoon (Transcribed (Ok (Some Scenario.hello)))
      (onMessage (open Scenario.env) Scenario.audio1) = Some s1
    /\ resume Scenario.env 0 Scenario.tuesdayNoon
         (Completed (Throw (lit "Request failed with status code 503"))) s1 = Some s2
    /\ conversation s2
       = conversation (onMessage (open Scenario.env) Scenario.audio1)
         ++ [{| role := user; content := trim (orEmpty (Some Scenario.hello)) |}]
    /\ sent s2 = sent (onMessage (open Scenario.env) Scenario.audio1)
    /\ callActive s2 = callActive s1
    /\ awaiting 0 (pending s2) = None.
Proof.
  destruct (C5_failed_completion_keeps_user_turn Scenario.env 0 Scenario.tuesdayNoon
              (Some Scenario.hello) (onMessage (open Scenario.env) Scenario.audio1)
              eq_refl eq_refl eq_refl) as (s1 & R1 & T1 & _ & S1 & A1 & Hfail).
  destruct (Hfail s1 Scenario.tuesdayNoon
              (lit "Request failed with status code 503") A1)
    as (s2 & R2 & T2 & S2 & _ & _ & Act2 & A2).
  exists s1, s2.
  split; [exact R1|]; split; [exact R2|].
  split; [rewrite T2; exact T1|].
  split; [rewrite S2; exact S1|].
  split; [exact Act2 | exact A2].
Defined.

(** *** Outside business hours *)




(** *** The text message with the scheduling link *)



(** *** When the text message is sent *)

Lemma shouldSendLink_spec (env : Env) (text : JsString) :
  shouldSendLink env text = true <->
  (includesWord kwSchedule (toLowerCase text) \/ includesWord kwBook (toLowerCase text))
  /\ isSet (CALENDLY_LINK env) = true /\ isSet (CALLER_PHONE env) = true.
Proof.
  unfold shouldSendLink; rewrite !andb_true_iff, JsFacts.mentionsScheduling_spec.
  tauto.
Qed.

(** The claim of C1 fails on the code: the regular expression of line 136
    is [/\bschedule\b|\bbook\b/], which asks for a word boundary on both
    sides.  "booking" contains "book" and both follow-up settings are set,
    and no text message is requested. *)
Lemma C1_booking_requests_no_text_message :
  containsKeyword (lit "booking")
  /\ isSet (CALENDLY_LINK Scenario.env) = true
  /\ isSet (CALLER_PHONE Scenario.env) = true
  /\ exists s,
       resume Scenario.env 0 Scenario.tuesdayNoon
         (Completed (Ok (Some (lit "booking")))) Scenario.awaitingCompletion
       = Some s
       /\ dispatches (calls s) = 0%nat
       /\ calls s
          = calls Scenario.awaitingCompletion ++ [CallSpeech (lit "booking")].
Proof.
  split; [right; exists [], (lit "ing"); reflexivity|].
  split; [reflexivity|]; split; [reflexivity|].
  eexists; split; [reflexivity|]; split; reflexivity.
Qed.

(** The same holds for "reschedule". *)
Lemma reschedule_requests_no_text_message :
  containsKeyword (lit "We can reschedule") /\ mentionsScheduling (lit "We can reschedule") = false.
Proof.
  split; [left; exists (lit "we can re"), []; reflexivity | reflexivity].
Qed.

(** C1, amended: for every reply of the completion engine, a text message
    is requested exactly when the lower-cased reply contains "schedule" or
    "book" as a whole word (not preceded and not followed by a letter, a
    digit or an underscore) and both the link and the contact are set; at
    most one is requested. *)
Theorem C1_dispatch_iff_whole_word (env : Env) (id : nat) (now : LocalTime)
    (message : option JsString) (s : Session) :
  awaiting id (pending s) = Some AwaitCompletion ->
  exists s1, resume env id now (Completed (Ok message)) s = Some s1
    /\ (dispatches (calls s1) = S (dispatches (calls s)) <->
        (includesWord kwSchedule (toLowerCase (orEmpty message))
         \/ includesWord kwBook (toLowerCase (orEmpty message)))
        /\ isSet (CALENDLY_LINK env) = true /\ isSet (CALLER_PHONE env) = true)
    /\ (dispatches (calls s1) = dispatches (calls s)
        \/ dispatches (calls s1) = S (dispatches (calls s))).
Proof.
  intros Hk; resumes Hk.
  unfold afterCompletion, chatCompletion.
  rewrite <- shouldSendLink_spec.
  destruct (shouldSendLink env (orEmpty message)); cbv zeta iota.
  - assert (E : dispatches
                  (calls
                     (suspend id (AwaitSms (orEmpty message))
                        (request
                           (CallSms (orEmpty (CALLER_PHONE env)) (TWILIO_NUMBER env)
                              (smsBody env))
                           (push {| role := assistant; content := orEmpty message |} s))))
                = S (dispatches (calls s))) by apply dispatches_sms.
    rewrite E; split; [tauto | right; reflexivity].
  - assert (E : dispatches
                  (calls
                     (suspend id AwaitSpeech
                        (request (CallSpeech (orEmpty message))
                           (push {| role := assistant; content := orEmpty message |} s))))
                = dispatches (calls s)) by apply dispatches_speech.
    rewrite E; split; [|left; reflexivity].
    split; [intros H; exfalso; lia | discriminate].
Qed.

(** A reply with "schedule" as a word of its own. *)
Lemma C1_schedule_reply_requests_text_message :
  exists s1,
    resume Scenario.env 0 Scenario.tuesdayNoon (Completed (Ok (Some Scenario.reply)))
      Scenario.awaitingCompletion = Some s1
    /\ (dispatches (calls s1) = S (dispatches (calls Scenario.awaitingCompletion)) <->
        (includesWord kwSchedule (toLowerCase (orEmpty (Some Scenario.reply)))
         \/ includesWord kwBook (toLowerCase (orEmpty (Some Scenario.reply))))
        /\ isSet (CALENDLY_LINK Scenario.env) = true
        /\ isSet (CALLER_PHONE Scenario.env) = true)
    /\ (dispatches (calls s1) = dispatches (calls Scenario.awaitingCompletion)
        \/ dispatches (calls s1) = S (dispatches (calls Scenario.awaitingCompletion))).
Proof.
  exact (C1_dispatch_iff_whole_word Scenario.env 0 Scenario.tuesdayNoon
           (Some Scenario.reply) Scenario.awaitingCompletion eq_refl).
Defined.

(** *** The transcript only grows *)

Lemma onMessage_conversation (s : Session) (raw : Frame) :
  conversation (onMessage s raw) = conversation s.
Proof.
  unfold onMessage; destruct (negb (callActive s)); [reflexivity|].
  destruct raw as [m|[payload|m]| |]; reflexivity.
Qed.

Lemma spoken_user (text : JsString) : spoken {| role := user; content := text |}.
Proof. discriminate. Qed.

Lemma spoken_assistant (text : JsString) :
  spoken {| role := assistant; content := text |}.
Proof. discriminate. Qed.

#[local] Hint Resolve spoken_user spoken_assistant : core.

Lemma resume_appends (env : Env) (id : nat) (now : LocalTime) (r : Settlement)
    (s s' : Session) :
  resume env id now r s = Some s' ->
  exists added, conversation s' = conversation s ++ added /\ Forall spoken added.
Proof.
  unfold resume; intros H.
  destruct (awaiting id (pending s)) as [[| | | |]|]; destruct r as [r|r|r|r];
    try discriminate; injection H as <-.
  - unfold afterTranscription.
    destruct (speechToText r) as [t|m];
      [destruct (negb (truthy t)); [|destruct (negb (isBusinessHours now))]|].
    + exists []; split; [symmetry; apply app_nil_r | constructor].
    + eexists; split; [reflexivity | auto].
    + eexists; split; [reflexivity | auto].
    + exists []; split; [symmetry; apply app_nil_r | constructor].
  - unfold afterAfterHoursSpeech; destruct r.
    + eexists; split; [reflexivity | auto].
    + exists []; split; [symmetry; apply app_nil_r | constructor].
  - unfold afterCompletion.
    destruct (chatCompletion r) as [t|m]; [destruct (shouldSendLink env t)|].
    + eexists; split; [reflexivity | auto].
    + eexists; split; [reflexivity | auto].
    + exists []; split; [symmetry; apply app_nil_r | constructor].
  - unfold afterSms; destruct r;
      (exists []; split; [symmetry; apply app_nil_r | constructor]).
  - unfold afterSpeech; destruct r;
      (exists []; split; [symmetry; apply app_nil_r | constructor]).
Qed.

Lemma step_appends (env : Env) (s : Session) (e : Event) (s' : Session) :
  step env s e = Some s' ->
  exists added, conversation s' = conversation s ++ added /\ Forall spoken added.
Proof.
  destruct e as [raw|id now r]; simpl.
  - intros H; injection H as <-; exists []; split; [|constructor].
    rewrite onMessage_conversation; symmetry; apply app_nil_r.
  - apply resume_appends.
Qed.

Lemma run_appends (env : Env) (es : list Event) : forall (s s' : Session),
  run env s es = Some s' ->
  exists added, conversation s' = conversation s ++ added /\ Forall spoken added.
Proof.
  induction es as [|e es IH]; intros s s' H; simpl in H.
  - injection H as <-; exists []; split; [symmetry; apply app_nil_r | constructor].
  - destruct (step env s e) as [s1|] eqn:E; [|discriminate].
    destruct (step_appends _ _ _ _ E) as (a1 & C1 & F1).
    destruct (IH _ _ H) as (a2 & C2 & F2).
    exists (a1 ++ a2); split; [now rewrite C2, C1, app_assoc|].
    apply Forall_app; auto.
Qed.

(** C9: in every state a session can reach, the transcript is the system
    Turn of line 108 followed by Turns that are not system Turns, and every
    further step leaves the Turns already there in place and only appends. *)
Theorem C9_system_turn_first_and_only (env : Env) (es : list Event) (s : Session) :
  run env (open env) es = Some s ->
  (exists rest,
      conversation s = {| role := system; content := systemPrompt env |} :: rest
      /\ Forall spoken rest)
  /\ forall (e : Event) (s' : Session),
       step env s e = Some s' ->
       exists added,
         conversation s' = conversation s ++ added /\ Forall spoken added.
Proof.
  intros H; split.
  - destruct (run_appends _ _ _ _ H) as (rest & C & F).
    exists rest; split; [exact C | exact F].
  - intros e s'; apply step_appends.
Qed.

(** The transcript after one event has been answered. *)
Lemma C9_transcript_of_a_call :
  (exists rest,
      conversation
        (afterCompletion Scenario.env 0 (Ok (Some Scenario.reply))
           Scenario.awaitingCompletion)
      = {| role := system; content := systemPrompt Scenario.env |} :: rest
      /\ Forall spoken rest)
  /\ forall (e : Event) (s' : Session),
       step Scenario.env
         (afterCompletion Scenario.env 0 (Ok (Some Scenario.reply))
            Scenario.awaitingCompletion) e = Some s' ->
       exists added,
         conversation s'
         = conversation
             (afterCompletion Scenario.env 0 (Ok (Some Scenario.reply))
                Scenario.awaitingCompletion) ++ added
         /\ Forall spoken added.
Proof.
  exact (C9_system_turn_first_and_only Scenario.env
           [Arrives Scenario.audio1;
            Settles 0 Scenario.tuesdayNoon (Transcribed (Ok (Some Scenario.hello)));
            Settles 0 Scenario.tuesdayNoon (Completed (Ok (Some Scenario.reply)))]
           _ eq_refl).
Defined.

(** *** Frames that arrive while a pipeline is suspended *)

(** The claim of C2 fails on the code: the handler of line 111 is an
    [async] function registered with [socket.on], there is no queue, and a
    frame that arrives while an earlier pipeline is suspended starts its own
    pipeline at once.  After two frames two pipelines are under way, and the
    Turn of the second event can enter the transcript before the Turn of the
    first. *)
Lemma C2_second_pipeline_begins_before_first_ends :
  (exists s,
      run Scenario.env (open Scenario.env) Scenario.burst = Some s
      /\ pending s = [(0, AwaitTranscription); (1, AwaitTranscription)])
  /\ exists s,
       run Scenario.env (open Scenario.env)
         (Scenario.burst
          ++ [Settles 1 Scenario.tuesdayNoon (Transcribed (Ok (Some (lit "second"))));
              Settles 0 Scenario.tuesdayNoon (Transcribed (Ok (Some (lit "first"))))])
       = Some s
       /\ map content (conversation s)
          = [systemPrompt Scenario.env; lit "second"; lit "first"].
Proof.
  split; eexists; split; reflexivity.
Qed.

Lemma onMessage_pending_idle (s : Session) (raw : Frame) :
  pending s = [] -> (List.length (pending (onMessage s raw)) <= 1)%nat.
Proof.
  intros H; unfold onMessage; destruct (negb (callActive s)); [rewrite H; simpl; lia|].
  destruct raw as [m|[payload|m]| |]; simpl; rewrite H; simpl; lia.
Qed.

Lemma run_one_at_a_time (env : Env) (es : list Event) : forall (s s' : Session),
  (List.length (pending s) <= 1)%nat ->
  arrivesIdle env s es ->
  run env s es = Some s' ->
  (List.length (pending s') <= 1)%nat.
Proof.
  induction es as [|e es IH]; intros s s' Hs Hidle Hrun; simpl in Hrun.
  - injection Hrun as <-; exact Hs.
  - destruct Hidle as [Hnow Hlater].
    destruct (step env s e) as [s1|] eqn:E; [|discriminate].
    apply (IH s1 s'); [|exact Hlater|exact Hrun].
    destruct e as [raw|id now r]; simpl in E.
    + injection E as <-; apply onMessage_pending_idle; exact Hnow.
    + apply resume_pending_le in E; lia.
Qed.

(** C2, amended: a media frame that arrives while the call is active starts
    its pipeline at once (its transcription is requested within the same
    segment, after the pipelines that are already suspended; it is neither
    queued nor dropped).  Pipelines run one at a time in every run whose
    frames arrive while no pipeline is suspended. *)
Theorem C2_one_at_a_time_when_frames_wait (env : Env) :
  (forall (s : Session) (payload : JsString),
      callActive s = true ->
      pending (onMessage s (Media (Base64 payload)))
      = pending s ++ [(nextId s, AwaitTranscription)]
      /\ calls (onMessage s (Media (Base64 payload)))
         = calls s ++ [CallTranscription payload])
  /\ forall (es : list Event) (s : Session),
       arrivesIdle env (open env) es ->
       run env (open env) es = Some s ->
       (List.length (pending s) <= 1)%nat.
Proof.
  split.
  - intros s payload Hactive; unfold onMessage; rewrite Hactive; split; reflexivity.
  - intros es s; apply run_one_at_a_time; simpl; lia.
Qed.

(** A second frame that arrives once the first event has been answered. *)
Lemma C2_paced_run :
  (pending (onMessage (open Scenario.env) (Media (Base64 (lit "AAEC"))))
   = pending (open Scenario.env) ++ [(nextId (open Scenario.env), AwaitTranscription)]
   /\ calls (onMessage (open Scenario.env) (Media (Base64 (lit "AAEC"))))
      = calls (open Scenario.env) ++ [CallTranscription (lit "AAEC")])
  /\ arrivesIdle Scenario.env (open Scenario.env) Scenario.paced
  /\ exists s : Session,
       run Scenario.env (open Scenario.env) Scenario.paced = Some s
       /\ (List.length (pending s) <= 1)%nat.
Proof.
  split.
  - exact (proj1 (C2_one_at_a_time_when_frames_wait Scenario.env)
             (open Scenario.env) (lit "AAEC") eq_refl).
  - assert (Hidle : arrivesIdle Scenario.env (open Scenario.env) Scenario.paced)
      by (simpl; repeat split).
    split; [exact Hidle|].
    eexists; split; [reflexivity|].
    apply (proj2 (C2_one_at_a_time_when_frames_wait Scenario.env) Scenario.paced);
      [exact Hidle | reflexivity].
Defined.

(** *** After the stop event *)

(** The claim of C3 fails on the code: [callActive] is read at line 112
    only, when a frame arrives.  A pipeline that was suspended when the stop
    event came runs to its end afterwards: it appends its Turns, calls the
    completion engine and passes its audio to [send]. *)
Lemma C3_pipeline_in_flight_outlives_stop :
  callActive Scenario.hungUp = false
  /\ exists s,
       run Scenario.env Scenario.hungUp
         [Settles 0 Scenario.tuesdayNoon (Transcribed (Ok (Some Scenario.hello)));
          Settles 0 Scenario.tuesdayNoon (Completed (Ok (Some Scenario.smallTalk)));
          Settles 0 Scenario.tuesdayNoon (Synthesized (Ok Scenario.pcm))]
       = Some s
       /\ conversation s
          = conversation Scenario.hungUp
            ++ [{| role := user; content := Scenario.hello |};
                {| role := assistant; content := Scenario.smallTalk |}]
       /\ sent s = sent Scenario.hungUp ++ [MediaOut Scenario.pcm].
Proof.
  split; [reflexivity|].
  eexists; split; [reflexivity|]; split; reflexivity.
Qed.

Lemma onMessage_inactive (s : Session) (raw : Frame) :
  callActive s = false -> onMessage s raw = s.
Proof. intros H; unfold onMessage; rewrite H; reflexivity. Qed.

Lemma step_inactive (env : Env) (s : Session) (e : Event) (s' : Session) :
  callActive s = false ->
  step env s e = Some s' ->
  callActive s' = false
  /\ (List.length (pending s') <= List.length (pending s))%nat
  /\ (pending s = [] -> s' = s).
Proof.
  intros Hoff; destruct e as [raw|id now r]; simpl.
  - rewrite (onMessage_inactive _ _ Hoff); intros H; injection H as <-; auto.
  - intros H; split; [|split].
    + rewrite (resume_callActive _ _ _ _ _ _ H); exact Hoff.
    + exact (resume_pending_le _ _ _ _ _ _ H).
    + intros Hnone; unfold resume in H; rewrite Hnone in H; discriminate.
Qed.

Lemma run_inactive (env : Env) (es : list Event) : forall (s s' : Session),
  callActive s = false ->
  run env s es = Some s' ->
  callActive s' = false
  /\ (List.length (pending s') <= List.length (pending s))%nat
  /\ (pending s = [] -> s' = s).
Proof.
  induction es as [|e es IH]; intros s s' Hoff H; simpl in H.
  - injection H as <-; auto.
  - destruct (step env s e) as [s1|] eqn:E; [|discriminate].
    destruct (step_inactive _ _ _ _ Hoff E) as (Hoff1 & Hle1 & Hsame1).
    destruct (IH _ _ Hoff1 H) as (Hoff' & Hle' & Hsame').
    split; [exact Hoff'|]; split; [lia|].
    intros Hnone; specialize (Hsame1 Hnone); subst s1; auto.
Qed.

(** C3, amended: the stop event sets [callActive] to false, and from then
    on the session never becomes active again, every frame that arrives is
    ignored (the state is left as it is), and no new pipeline is started.
    Pipelines suspended at that time are not cancelled; once none is left,
    the transcript and the frames sent never change again. *)
Theorem C3_frames_after_stop_are_ignored (env : Env) (s : Session) :
  callActive s = false ->
  (forall s0 : Session, callActive s0 = true -> callActive (onMessage s0 Stop) = false)
  /\ (forall raw : Frame, onMessage s raw = s)
  /\ forall (es : list Event) (s' : Session),
       run env s es = Some s' ->
       callActive s' = false
       /\ (List.length (pending s') <= List.length (pending s))%nat
       /\ (pending s = [] ->
           conversation s' = conversation s /\ sent s' = sent s).
Proof.
  intros Hoff; split; [|split].
  - intros s0 H0; unfold onMessage; rewrite H0; reflexivity.
  - intros raw; apply onMessage_inactive; exact Hoff.
  - intros es s' H.
    destruct (run_inactive _ _ _ _ Hoff H) as (H1 & H2 & H3).
    split; [exact H1|]; split; [exact H2|].
    intros Hnone; rewrite (H3 Hnone); auto.
Qed.

(** Frames that arrive after the caller has hung up. *)
Lemma C3_frames_after_hang_up :
  callActive (onMessage (open Scenario.env) Stop) = false
  /\ onMessage (onMessage (open Scenario.env) Stop) Scenario.audio1
     = onMessage (open Scenario.env) Stop
  /\ exists s',
       run Scenario.env (onMessage (open Scenario.env) Stop)
         [Arrives Scenario.audio1; Arrives Stop; Arrives Scenario.audio2] = Some s'
       /\ callActive s' = false
       /\ conversation s' = conversation (onMessage (open Scenario.env) Stop)
       /\ sent s' = sent (onMessage (open Scenario.env) Stop).
Proof.
  destruct (C3_frames_after_stop_are_ignored Scenario.env
              (onMessage (open Scenario.env) Stop) eq_refl) as (Hstop & Hignore & Hrun).
  split; [exact (Hstop (open Scenario.env) eq_refl)|].
  split; [exact (Hignore Scenario.audio1)|].
  eexists; split; [reflexivity|].
  destruct (Hrun [Arrives Scenario.audio1; Arrives Stop; Arrives Scenario.audio2]
              _ eq_refl) as (Hoff & _ & Hfrozen).
  split; [exact Hoff|]; exact (Hfrozen eq_refl).
Defined.

(** *** Frames that cannot be decoded *)


(** C4: a frame that is not JSON makes [JSON.parse] throw at line 113,
    before the [try] block of line 115: the error is not caught by the
    [catch] of line 151 and is not logged; it leaves the handler as a
    rejected promise.  No Turn is appended, no frame is sent and the call
    stays active. *)
Theorem C4_unparsable_frame_escapes_the_catch :
  exists s,
    run Scenario.env (open Scenario.env)
      [Arrives (Unparsable (lit "Unexpected token h in JSON at position 0"))]
    = Some s
    /\ logged s = []
    /\ escaped s = [lit "Unexpected token h in JSON at position 0"]
    /\ conversation s = conversation (open Scenario.env)
    /\ sent s = []
    /\ callActive s = true.
Proof.
  eexists; split; [reflexivity|]; repeat split.
Qed.

End ServerFacts.

(* ------------------------------------------------------------------ *)
(** ** Facts about the helpers *)

Module HelperFacts.

Import Js Policy Server Gateway Ledger.

(** *** Business hours *)


(** *** The system prompt *)

(** The system prompt is never empty: an unset or empty [SYSTEM_PROMPT]
    gives the built-in sentence, any other value is taken as it is. *)
Theorem systemPrompt_never_empty (env : Env) :
  truthy (systemPrompt env) = true
  /\ (forall p, SYSTEM_PROMPT env = Some p -> truthy p = true -> systemPrompt env = p)
  /\ (isSet (SYSTEM_PROMPT env) = false ->
      systemPrompt env
      = lit "You are the receptionist for The Law Offices of Pritpal Singh.").
Proof.
  unfold systemPrompt, isSet; repeat split.
  - destruct (truthy (orEmpty (SYSTEM_PROMPT env))) eqn:E; [exact E | reflexivity].
  - intros p Hp Ht; rewrite Hp; simpl; rewrite Ht; reflexivity.
  - intros H; rewrite H; reflexivity.
Qed.

(** *** Trimming *)

Lemma trimStart_startsClean (s : JsString) : startsClean (trimStart s).
Proof.
  induction s as [|c s IH]; simpl; [exact I|].
  destruct (isWhiteSpace c) eqn:E; [exact IH | exact E].
Qed.

Lemma trimStart_fixed (s : JsString) : startsClean s -> trimStart s = s.
Proof. destruct s as [|c s]; simpl; [reflexivity | intros ->; reflexivity]. Qed.

Lemma trimStart_nil_iff (s : JsString) :
  trimStart s = [] <-> forallb isWhiteSpace s = true.
Proof.
  induction s as [|c s IH]; simpl; [tauto|].
  destruct (isWhiteSpace c); simpl; [exact IH | split; discriminate].
Qed.

(** [trimStart] drops a prefix. *)
Lemma trimStart_suffix (s : JsString) : exists w, s = w ++ trimStart s.
Proof.
  induction s as [|c s [w IH]]; simpl; [exists []; reflexivity|].
  destruct (isWhiteSpace c); [|exists []; reflexivity].
  exists (c :: w); simpl; f_equal; exact IH.
Qed.

(** [trimEnd] drops a suffix. *)
Lemma trimEnd_prefix (s : JsString) : exists w, s = trimEnd s ++ w.
Proof.
  unfold trimEnd; destruct (trimStart_suffix (rev s)) as [w H].
  exists (rev w); rewrite <- rev_app_distr, <- H, rev_involutive; reflexivity.
Qed.

Lemma trimEnd_startsClean (s : JsString) : startsClean s -> startsClean (trimEnd s).
Proof.
  intros Hs; destruct (trimEnd_prefix s) as [w H].
  destruct (trimEnd s) as [|c t]; [exact I|].
  rewrite H in Hs; exact Hs.
Qed.

Lemma trim_startsClean (s : JsString) : startsClean (trim s).
Proof. apply trimEnd_startsClean, trimStart_startsClean. Qed.

Lemma trim_endsClean (s : JsString) : startsClean (rev (trim s)).
Proof.
  unfold trim, trimEnd; rewrite rev_involutive; apply trimStart_startsClean.
Qed.

Lemma trim_fixed (s : JsString) :
  startsClean s -> startsClean (rev s) -> trim s = s.
Proof.
  intros H1 H2; unfold trim, trimEnd.
  rewrite (trimStart_fixed s H1), (trimStart_fixed (rev s) H2).
  apply rev_involutive.
Qed.

Lemma forallb_rev (f : N -> bool) (s : list N) : forallb f (rev s) = forallb f s.
Proof.
  induction s as [|c s IH]; simpl; [reflexivity|].
  rewrite forallb_app, IH; simpl; rewrite andb_true_r; apply andb_comm.
Qed.

Lemma trim_nil_iff (s : JsString) :
  trim s = [] <-> forallb isWhiteSpace s = true.
Proof.
  unfold trim, trimEnd; split.
  - intros H; apply (f_equal (@rev N)) in H; rewrite rev_involutive in H.
    simpl in H; apply trimStart_nil_iff in H; rewrite forallb_rev in H.
    pose proof (trimStart_startsClean s) as Hc.
    destruct (trimStart s) as [|c t] eqn:E; [apply trimStart_nil_iff; exact E|].
    simpl in H, Hc; rewrite Hc in H; discriminate.
  - intros H; apply trimStart_nil_iff in H; rewrite H; reflexivity.
Qed.

(** What [speechToText] returns has white space neither at its start nor
    at its end, trimming it again changes nothing, and it is empty exactly
    when the service's text is missing or made of white space only. *)
Theorem speechToText_trimmed (data : option JsString) :
  exists text,
    speechToText (Ok data) = Ok text
    /\ startsClean text
    /\ startsClean (rev text)
    /\ trim text = text
    /\ (text = [] <-> forallb isWhiteSpace (orEmpty data) = true).
Proof.
  exists (trim (orEmpty data)); split; [reflexivity|].
  pose proof (trim_startsClean (orEmpty data)) as H1.
  pose proof (trim_endsClean (orEmpty data)) as H2.
  repeat split; auto using trim_fixed; apply trim_nil_iff.
Qed.

(** *** The keyword test *)

Lemma lowerUnit_lowered (c : N) : flat_map lowerUnit (lowerUnit c) = lowerUnit c.
Proof.
  unfold lowerUnit.
  destruct ((0x41 <=? c) && (c <=? 0x5A))%N eqn:E1.
  - apply andb_prop in E1 as [H1 H2].
    apply N.leb_le in H1; apply N.leb_le in H2; simpl.
    replace ((0x41 <=? c + 0x20) && (c + 0x20 <=? 0x5A))%N with false
      by (symmetry; apply andb_false_iff; right; apply N.leb_gt; lia).
    replace (c + 0x20 =? 0x212A)%N with false by (symmetry; apply N.eqb_neq; lia).
    replace (c + 0x20 =? 0x130)%N with false by (symmetry; apply N.eqb_neq; lia).
    reflexivity.
  - destruct (c =? 0x212A)%N eqn:E2; [reflexivity|].
    destruct (c =? 0x130)%N eqn:E3; [reflexivity|].
    simpl; rewrite E1, E2, E3; reflexivity.
Qed.

Lemma toLowerCase_idempotent (s : JsString) :
  toLowerCase (toLowerCase s) = toLowerCase s.
Proof.
  unfold toLowerCase; induction s as [|c s IH]; simpl; [reflexivity|].
  rewrite flat_map_app, IH, lowerUnit_lowered; reflexivity.
Qed.

Lemma toLowerCase_app (a b : JsString) :
  toLowerCase (a ++ b) = toLowerCase a ++ toLowerCase b.
Proof. apply flat_map_app. Qed.

(** The keyword test accepts "schedule" and "book" in any mix of cases
    (a word that lower-cases to one of them), wherever the word stands
    between characters that are not letters, digits or underscores; and it
    accepts no text that does not contain one of the two, case aside. *)
Theorem mentionsScheduling_any_case (pre w post : JsString) :
  (toLowerCase w = kwSchedule \/ toLowerCase w = kwBook ->
   isWordAt (unitBefore None (toLowerCase pre)) = false ->
   isWordAt (hd_error (toLowerCase post)) = false ->
   mentionsScheduling (pre ++ w ++ post) = true)
  /\ (mentionsScheduling w = true -> containsKeyword w)
  /\ mentionsScheduling (toLowerCase w) = mentionsScheduling w.
Proof.
  split; [|split].
  - intros Hw Hpre Hpost; apply JsFacts.mentionsScheduling_spec.
    rewrite !toLowerCase_app.
    destruct Hw as [Hw|Hw]; rewrite Hw; [left | right];
      exists (toLowerCase pre), (toLowerCase post); auto.
  - intros H; apply JsFacts.mentionsScheduling_spec in H.
    destruct H as [(a & b & H & _)|(a & b & H & _)]; [left | right];
      exists a, b; exact H.
  - unfold mentionsScheduling; rewrite toLowerCase_idempotent; reflexivity.
Qed.

(** "Please BOOK now." *)
Lemma mentionsScheduling_capitals :
  mentionsScheduling (lit "Please " ++ lit "BOOK" ++ lit " now.") = true.
Proof.
  exact (proj1 (mentionsScheduling_any_case (lit "Please ") (lit "BOOK") (lit " now."))
           (or_intror eq_refl) eq_refl eq_refl).
Defined.

(** *** The call-setup document *)

(** The document of [/twiml] names the forwarded host when that header is
    set and not empty, whatever the [Host] header says; otherwise the [Host]
    header, also when it is empty; and the word "undefined" when both are
    missing.  Two requests get the same document only if they name the same
    host. *)
Theorem twiml_names_the_request_host (h : Headers) :
  contentType (twiml h) = lit "text/xml"
  /\ (forall f, x_forwarded_host h = Some f -> truthy f = true ->
      body (twiml h) = twimlHead ++ f ++ twimlTail)
  /\ (forall d, isSet (x_forwarded_host h) = false -> host h = Some d ->
      body (twiml h) = twimlHead ++ d ++ twimlTail)
  /\ (isSet (x_forwarded_host h) = false -> host h = None ->
      body (twiml h) = twimlHead ++ lit "undefined" ++ twimlTail)
  /\ (forall h', body (twiml h) = body (twiml h') ->
      spliced (streamHost h) = spliced (streamHost h')).
Proof.
  split; [reflexivity|].
  change (body (twiml h)) with (twimlHead ++ spliced (streamHost h) ++ twimlTail).
  unfold streamHost, orElse, isSet.
  split; [|split; [|split]].
  - intros f Hf Ht; rewrite Hf; unfold orEmpty; rewrite Ht; reflexivity.
  - intros d Hx Hd; rewrite Hx, Hd; reflexivity.
  - intros Hx Hd; rewrite Hx, Hd; reflexivity.
  - intros h' H.
    change (body (twiml h')) with (twimlHead ++ spliced (streamHost h') ++ twimlTail)
      in H.
    apply app_inv_head in H; apply app_inv_tail in H; exact H.
Qed.

(** A request that came through a proxy. *)
Lemma twiml_behind_a_proxy :
  body (twiml {| x_forwarded_host := Some (lit "office.example.com");
                 host := Some (lit "10.0.0.7:8081") |})
  = twimlHead ++ lit "office.example.com" ++ twimlTail.
Proof.
  exact (proj1 (proj2 (twiml_names_the_request_host
                         {| x_forwarded_host := Some (lit "office.example.com");
                            host := Some (lit "10.0.0.7:8081") |}))
           (lit "office.example.com") eq_refl eq_refl).
Defined.

(** A deployment whose prompt is set. *)
Lemma systemPrompt_of_a_deployment :
  systemPrompt {| SYSTEM_PROMPT := Some (lit "You are Ana.");
                  CALENDLY_LINK := None; CALLER_PHONE := None;
                  TWILIO_NUMBER := None |}
  = lit "You are Ana.".
Proof.
  exact (proj1 (proj2 (systemPrompt_never_empty
                         {| SYSTEM_PROMPT := Some (lit "You are Ana.");
                            CALENDLY_LINK := None; CALLER_PHONE := None;
                            TWILIO_NUMBER := None |}))
           (lit "You are Ana.") eq_refl eq_refl).
Defined.

End HelperFacts.

(* ------------------------------------------------------------------ *)
(** ** Facts about whole calls *)

Module CallFacts.

Import Js Policy Server Ledger.

(** A property that holds when the connection opens and that every step
    keeps holds in every state the session reaches. *)
Lemma run_keeps (env : Env) (P : Session -> Prop) :
  (forall s e s', P s -> step env s e = Some s' -> P s') ->
  forall es s s', P s -> run env s es = Some s' -> P s'.
Proof.
  intros Hstep; induction es as [|e es IH]; intros s s' Hs H; simpl in H.
  - injection H as <-; exact Hs.
  - destruct (step env s e) as [s1|] eqn:E; [|discriminate].
    exact (IH _ _ (Hstep _ _ _ Hs E) H).
Qed.

(** Splits a step into the segments of the handler: one goal for each way
    a segment can end. *)
Ltac segments H :=
  match type of H with
  | step ?env ?s ?e = Some _ =>
      destruct e as [raw|id now r]; simpl in H;
      [ injection H as <-; unfold onMessage;
        destruct (callActive s) eqn:Hactive; simpl negb; cbv iota;
        [ destruct raw as [m|[payload|m]| |] | ]
      | unfold resume in H;
        destruct (awaiting id (pending s)) as [[| | |text|]|] eqn:Hk;
        destruct r as [r|r|r|r]; try discriminate H; injection H as <-;
        [ unfold afterTranscription, speechToText; destruct r as [data|m];
          [ destruct (truthy (trim (orEmpty data))) eqn:Htext; simpl negb; cbv iota;
            [ destruct (isBusinessHours now) eqn:Hopen; simpl negb; cbv iota zeta | ]
          | ]
        | unfold afterAfterHoursSpeech; destruct r as [pcm|m]
        | unfold afterCompletion, chatCompletion; destruct r as [message|m];
          [ destruct (shouldSendLink env (orEmpty message)) eqn:Hlink; cbv iota zeta | ]
        | unfold afterSms; destruct r as [[]|m]; cbv zeta
        | unfold afterSpeech; destruct r as [pcm|m] ] ]
  end.

(** Reduces the fields of an updated session to the fields of the session
    it was made from. *)
Ltac fields :=
  cbn [conversation callActive closed sent calls logged escaped pending nextId
       push send request consoleError escape hangUp setPending begin suspend
       finish] in *.




Lemma sent_step (env : Env) (s : Session) (e : Event) (s' : Session) :
  step env s e = Some s' -> sent s' = sent s ++ audioOf [e].
Proof.
  intros H; segments H; fields; simpl; rewrite ?app_nil_r; reflexivity.
Qed.


(** The frames passed to [send] are the audio of the syntheses that
    succeeded, each once, unchanged and in the order in which they
    succeeded; nothing else is ever sent. *)
Theorem sent_is_the_synthesized_audio (env : Env) (es : list Event) :
  forall s s' : Session,
    run env s es = Some s' -> sent s' = sent s ++ audioOf es.
Proof.
  induction es as [|e es IH]; intros s s' H; simpl in H.
  - injection H as <-; symmetry; apply app_nil_r.
  - destruct (step env s e) as [s1|] eqn:E; [|discriminate].
    rewrite (IH _ _ H), (sent_step _ _ _ _ E), <- app_assoc.
    f_equal; unfold audioOf; simpl; rewrite app_nil_r; reflexivity.
Qed.

(** *** Counting *)

Lemma turnsOf_push (r : Role) (c : list Turn) (t : Turn) :
  turnsOf r (c ++ [t]) = turnsOf r c + b2n (isRole r t).
Proof.
  unfold turnsOf; rewrite filter_app, length_app; simpl.
  destruct (isRole r t); reflexivity.
Qed.

Lemma transcriptions_push (cs : list Call) (c : Call) :
  transcriptions (cs ++ [c])
  = transcriptions cs
    + b2n match c with CallTranscription _ => true | _ => false end.
Proof.
  unfold transcriptions; rewrite filter_app, length_app; simpl.
  destruct c; reflexivity.
Qed.

Lemma suspendedAt_begin (f : Await -> bool) (p : list (nat * Await)) (n : nat)
    (k : Await) :
  suspendedAt f (p ++ [(n, k)]) = suspendedAt f p + b2n (f k).
Proof.
  unfold suspendedAt; rewrite filter_app, length_app; simpl.
  destruct (f k); reflexivity.
Qed.

Lemma replace_absent (id : nat) (k : Await) (p : list (nat * Await)) :
  ~ In id (map fst p) ->
  map (fun e => if Nat.eqb (fst e) id then (id, k) else e) p = p.
Proof.
  induction p as [|[i a] p IH]; simpl; intros H; [reflexivity|].
  destruct (Nat.eqb_spec i id) as [->|_]; [tauto|].
  f_equal; apply IH; tauto.
Qed.

Lemma remove_absent (id : nat) (p : list (nat * Await)) :
  ~ In id (map fst p) ->
  filter (fun e => negb (Nat.eqb (fst e) id)) p = p.
Proof.
  induction p as [|[i a] p IH]; simpl; intros H; [reflexivity|].
  destruct (Nat.eqb_spec i id) as [->|_]; [tauto|].
  simpl; f_equal; apply IH; tauto.
Qed.

(** With distinct ids, moving pipeline [id] from [k0] to [k] changes the
    counts by that one pipeline. *)
Lemma suspendedAt_replace (f : Await -> bool) (id : nat) (k k0 : Await)
    (p : list (nat * Await)) :
  NoDup (map fst p) ->
  awaiting id p = Some k0 ->
  suspendedAt f (map (fun e => if Nat.eqb (fst e) id then (id, k) else e) p)
  + b2n (f k0)
  = suspendedAt f p + b2n (f k).
Proof.
  induction p as [|[i a] p IH]; simpl; intros Hd Hk; [discriminate|].
  inversion Hd as [|? ? Hnot Hd']; subst.
  destruct (Nat.eqb_spec i id) as [->|Hne].
  - injection Hk as ->; rewrite (replace_absent _ _ _ Hnot).
    unfold suspendedAt; simpl; destruct (f k), (f k0); simpl; lia.
  - specialize (IH Hd' Hk); unfold suspendedAt in *; simpl.
    destruct (f a); simpl; lia.
Qed.

Lemma suspendedAt_remove (f : Await -> bool) (id : nat) (k0 : Await)
    (p : list (nat * Await)) :
  NoDup (map fst p) ->
  awaiting id p = Some k0 ->
  suspendedAt f (filter (fun e => negb (Nat.eqb (fst e) id)) p) + b2n (f k0)
  = suspendedAt f p.
Proof.
  induction p as [|[i a] p IH]; simpl; intros Hd Hk; [discriminate|].
  inversion Hd as [|? ? Hnot Hd']; subst.
  destruct (Nat.eqb_spec i id) as [->|Hne]; simpl.
  - injection Hk as ->; rewrite (remove_absent _ _ Hnot).
    unfold suspendedAt; simpl; destruct (f k0); simpl; lia.
  - specialize (IH Hd' Hk); unfold suspendedAt in *; simpl.
    destruct (f a); simpl; lia.
Qed.

Lemma ids_replace (id : nat) (k : Await) (p : list (nat * Await)) :
  map fst (map (fun e => if Nat.eqb (fst e) id then (id, k) else e) p) = map fst p.
Proof.
  induction p as [|[i a] p IH]; simpl; [reflexivity|].
  destruct (Nat.eqb_spec i id) as [->|_]; simpl; f_equal; exact IH.
Qed.

Lemma ids_remove_incl (id : nat) (p : list (nat * Await)) (i : nat) :
  In i (map fst (filter (fun e => negb (Nat.eqb (fst e) id)) p)) -> In i (map fst p).
Proof.
  rewrite !in_map_iff; intros (e & He & Hin).
  apply filter_In in Hin as [Hin _]; eauto.
Qed.

Lemma ids_remove_distinct (id : nat) (p : list (nat * Await)) :
  NoDup (map fst p) ->
  NoDup (map fst (filter (fun e => negb (Nat.eqb (fst e) id)) p)).
Proof.
  induction p as [|[i a] p IH]; simpl; intros Hd; [constructor|].
  inversion Hd as [|? ? Hnot Hd']; subst.
  destruct (negb (Nat.eqb i id)); simpl; [|auto].
  constructor; [|auto].
  intros Hin; apply Hnot; exact (ids_remove_incl _ _ _ Hin).
Qed.

Lemma ids_remove_issued (id n : nat) (p : list (nat * Await)) :
  Forall (fun i => i < n) (map fst p) ->
  Forall (fun i => i < n) (map fst (filter (fun e => negb (Nat.eqb (fst e) id)) p)).
Proof.
  rewrite !Forall_forall; intros H i Hin; apply H; exact (ids_remove_incl _ _ _ Hin).
Qed.

Lemma ids_begin_distinct (n : nat) (l : list nat) :
  NoDup l -> Forall (fun i => i < n) l -> NoDup (l ++ [n]).
Proof.
  intros Hd Hlt; rewrite Forall_forall in Hlt.
  induction l as [|i l IH]; simpl; [constructor; [tauto | constructor]|].
  inversion Hd as [|? ? Hnot Hd']; subst; constructor.
  - rewrite in_app_iff; intros [H|[H|[]]]; [tauto|].
    specialize (Hlt i (or_introl eq_refl)); lia.
  - apply IH; [exact Hd' | intros j Hj; apply Hlt; right; exact Hj].
Qed.

Lemma ids_begin_issued (n : nat) (l : list nat) :
  Forall (fun i => i < n) l -> Forall (fun i => i < S n) (l ++ [n]).
Proof.
  intros H; apply Forall_app; split.
  - eapply Forall_impl; [|exact H]; simpl; intros; lia.
  - repeat constructor.
Qed.

(** Brings in, for the pipeline that the goal suspends again or ends, how
    the three counts of suspended pipelines change. *)
Ltac recount Hd Hk :=
  match goal with
  | |- context [map (fun e => if Nat.eqb (fst e) ?id then (?id, ?k) else e) ?p] =>
      pose proof (suspendedAt_replace listening id k _ p Hd Hk);
      pose proof (suspendedAt_replace answering id k _ p Hd Hk);
      pose proof (suspendedAt_replace speaking id k _ p Hd Hk)
  | |- context [filter (fun e => negb (Nat.eqb (fst e) ?id)) ?p] =>
      pose proof (suspendedAt_remove listening id _ p Hd Hk);
      pose proof (suspendedAt_remove answering id _ p Hd Hk);
      pose proof (suspendedAt_remove speaking id _ p Hd Hk)
  | _ => idtac
  end.

Lemma Balanced_step (env : Env) (s : Session) (e : Event) (s' : Session) :
  Balanced s -> step env s e = Some s' -> Balanced s'.
Proof.
  intros [Hd Hi Hc H1 H2 H3] H; segments H; constructor; fields;
    rewrite ?ids_replace, ?map_app, ?turnsOf_push, ?transcriptions_push,
      ?suspendedAt_begin, ?length_app;
    simpl b2n; simpl List.length; simpl map;
    auto using ids_remove_distinct, ids_remove_issued, ids_begin_distinct,
      ids_begin_issued;
    try (recount Hd Hk; simpl b2n in *; simpl in *; lia).
Qed.

Lemma Balanced_open (env : Env) : Balanced (open env).
Proof. constructor; simpl; auto using NoDup_nil; lia. Qed.

Lemma dispatches_push (cs : list Call) (c : Call) :
  dispatches (cs ++ [c])
  = dispatches cs + b2n match c with CallSms _ _ _ => true | _ => false end.
Proof.
  unfold dispatches; rewrite filter_app, length_app; simpl.
  destruct c; reflexivity.
Qed.

Lemma completions_push (cs : list Call) (c : Call) :
  completions (cs ++ [c])
  = completions cs + b2n match c with CallCompletion _ => true | _ => false end.
Proof.
  unfold completions; rewrite filter_app, length_app; simpl.
  destruct c; reflexivity.
Qed.

Lemma Paired_step (env : Env) (s : Session) (e : Event) (s' : Session) :
  Paired s -> step env s e = Some s' -> Paired s'.
Proof.
  intros [H1 H2] H; segments H; split; fields;
    rewrite ?turnsOf_push, ?dispatches_push, ?completions_push;
    cbn [b2n isRole role]; lia.
Qed.

(** In every state a session reaches, no more frames have been sent than
    assistant Turns appended, no more assistant Turns than user Turns, and
    no more user Turns than transcriptions requested; no more completions
    have been requested than user Turns appended, and no more text messages
    than assistant Turns. *)
Theorem every_reply_answers_a_caller_turn (env : Env) (es : list Event) (s : Session) :
  run env (open env) es = Some s ->
  List.length (sent s) <= turnsOf assistant (conversation s)
  /\ turnsOf assistant (conversation s) <= turnsOf user (conversation s)
  /\ turnsOf user (conversation s) <= transcriptions (calls s)
  /\ completions (calls s) <= turnsOf user (conversation s)
  /\ dispatches (calls s) <= turnsOf assistant (conversation s).
Proof.
  intros H.
  assert (B : Balanced s)
    by (exact (run_keeps env Balanced (Balanced_step env) es _ _ (Balanced_open env) H)).
  assert (P : Paired s).
  { refine (run_keeps env Paired (Paired_step env) es _ _ _ H).
    split; exact (Nat.le_0_l _). }
  destruct B as [_ _ Hc H1 H2 H3], P as [P1 P2]; rewrite <- Hc.
  repeat split; lia.
Qed.

(** *** What the transcript and the requests contain *)

Lemma trimmed_trim (t : JsString) : truthy (trim t) = true -> trimmed (trim t).
Proof.
  intros H; split; [exact H|].
  apply HelperFacts.trim_fixed;
    [apply HelperFacts.trim_startsClean | apply HelperFacts.trim_endsClean].
Qed.

Lemma UsersTrimmed_step (env : Env) (s : Session) (e : Event) (s' : Session) :
  UsersTrimmed s -> step env s e = Some s' -> UsersTrimmed s'.
Proof.
  unfold UsersTrimmed; intros Hs H; segments H; fields; try exact Hs;
    apply Forall_app; (split; [exact Hs|]); constructor; try constructor;
    simpl; try discriminate; try exact Htext;
    exact (proj2 (trimmed_trim _ Htext)).
Qed.

(** In every state a session reaches, every user Turn of the transcript
    holds a text that is not empty and has no white space at either end. *)
Theorem user_turns_are_trimmed (env : Env) (es : list Event) (s : Session) :
  run env (open env) es = Some s ->
  forall t, In t (conversation s) -> role t = user ->
    truthy (content t) = true
    /\ startsClean (content t)
    /\ startsClean (rev (content t)).
Proof.
  intros H t Hin Hrole.
  assert (U : UsersTrimmed s).
  { refine (run_keeps env UsersTrimmed (UsersTrimmed_step env) es _ _ _ H).
    repeat constructor; discriminate. }
  unfold UsersTrimmed in U; rewrite Forall_forall in U.
  destruct (U t Hin Hrole) as [Ht Hfix]; split; [exact Ht|].
  rewrite <- Hfix; split;
    [apply HelperFacts.trim_startsClean | apply HelperFacts.trim_endsClean].
Qed.





Lemma isSet_Some (v : option JsString) :
  isSet v = true -> exists x, v = Some x /\ truthy x = true.
Proof.
  destruct v as [x|]; [|discriminate]; intros H; exists x; auto.
Qed.

Lemma wellAddressed_step (env : Env) (s : Session) (e : Event) (s' : Session) :
  Forall (wellAddressed env) (calls s) ->
  step env s e = Some s' ->
  Forall (wellAddressed env) (calls s').
Proof.
  intros Hs H; segments H; fields; try exact Hs;
    apply Forall_app; (split; [exact Hs|]); (constructor; [|constructor]);
    try exact I.
  unfold wellAddressed, shouldSendLink in *.
  apply andb_prop in Hlink as [Hlink Hphone]; apply andb_prop in Hlink as [_ Hlink].
  destruct (isSet_Some _ Hphone) as (to & Hto & Hto').
  destruct (isSet_Some _ Hlink) as (link & Hl & Hl').
  unfold smsBody; rewrite Hto, Hl; simpl orEmpty.
  split; [exact Hto'|]; split; [reflexivity|]; split; [reflexivity|].
  exists link; auto.
Qed.

(** Every text message requested goes to the configured contact, which is
    not empty, from the configured number, and its body is the fixed
    sentence followed by the configured link, which is not empty. *)
Theorem text_messages_are_well_addressed (env : Env) (es : list Event)
    (s : Session) :
  run env (open env) es = Some s ->
  forall to from body, In (CallSms to from body) (calls s) ->
    truthy to = true
    /\ CALLER_PHONE env = Some to
    /\ from = TWILIO_NUMBER env
    /\ exists link,
         CALENDLY_LINK env = Some link /\ truthy link = true
         /\ body
            = lit "Please use this link to schedule your paid consultation: "
              ++ link.
Proof.
  intros H to from body Hin.
  assert (W : Forall (wellAddressed env) (calls s)).
  { refine (run_keeps env (fun s => Forall (wellAddressed env) (calls s))
              (wellAddressed_step env) es _ _ _ H).
    constructor. }
  rewrite Forall_forall in W; exact (W _ Hin).
Qed.

(** *** Remote calls that fail *)

(** When the transcription, the completion or a synthesis fails, the event
    ends there: one line is logged, and the transcript, the frames sent,
    the requests made and [callActive] stay as they are, whatever the event
    had appended before.  No error escapes the handler. *)
Theorem remote_failure_ends_the_event (env : Env) (id : nat) (now : LocalTime)
    (k : Await) (m : JsString) (s : Session) :
  awaiting id (pending s) = Some k ->
  speaking k = false \/ k = AwaitSpeech ->
  exists s', resume env id now (failure k m) s = Some s'
    /\ logged s' = logged s ++ [ErrorProcessingMedia m]
    /\ conversation s' = conversation s
    /\ sent s' = sent s
    /\ calls s' = calls s
    /\ escaped s' = escaped s
    /\ callActive s' = callActive s
    /\ awaiting id (pending s') = None.
Proof.
  intros Hk Hkind; unfold resume; rewrite Hk.
  destruct k as [| | |text|];
    try (destruct Hkind as [Hkind|Hkind]; discriminate Hkind);
    (eexists; split; [reflexivity|]);
    repeat split; apply ServerFacts.awaiting_filter.
Qed.

(** *** The theorems above on the call of [Scenario.answered] *)

Lemma answered_runs :
  run Scenario.env (open Scenario.env) Scenario.answered = Some Scenario.answeredSession.
Proof. vm_compute; reflexivity. Qed.


Lemma answered_call_sends_its_audio :
  sent Scenario.answeredSession
  = sent (open Scenario.env) ++ audioOf Scenario.answered.
Proof.
  exact (sent_is_the_synthesized_audio Scenario.env Scenario.answered
           (open Scenario.env) Scenario.answeredSession answered_runs).
Defined.

Lemma answered_call_is_balanced :
  List.length (sent Scenario.answeredSession)
  <= turnsOf assistant (conversation Scenario.answeredSession)
  /\ turnsOf assistant (conversation Scenario.answeredSession)
     <= turnsOf user (conversation Scenario.answeredSession)
  /\ turnsOf user (conversation Scenario.answeredSession)
     <= transcriptions (calls Scenario.answeredSession)
  /\ completions (calls Scenario.answeredSession)
     <= turnsOf user (conversation Scenario.answeredSession)
  /\ dispatches (calls Scenario.answeredSession)
     <= turnsOf assistant (conversation Scenario.answeredSession).
Proof.
  exact (every_reply_answers_a_caller_turn Scenario.env Scenario.answered
           Scenario.answeredSession answered_runs).
Defined.

Lemma answered_call_user_turn :
  truthy Scenario.hello = true
  /\ startsClean Scenario.hello
  /\ startsClean (rev Scenario.hello).
Proof.
  apply (user_turns_are_trimmed Scenario.env Scenario.answered
           Scenario.answeredSession answered_runs
           {| role := user; content := Scenario.hello |}).
  - vm_compute; auto.
  - reflexivity.
Defined.


Lemma answered_call_text_message :
  truthy (lit "+15550100") = true
  /\ CALLER_PHONE Scenario.env = Some (lit "+15550100")
  /\ Some (lit "+15550199") = TWILIO_NUMBER Scenario.env
  /\ exists link,
       CALENDLY_LINK Scenario.env = Some link /\ truthy link = true
       /\ smsBody Scenario.env
          = lit "Please use this link to schedule your paid consultation: "
            ++ link.
Proof.
  apply (text_messages_are_well_addressed Scenario.env Scenario.answered
           Scenario.answeredSession answered_runs
           (lit "+15550100") (Some (lit "+15550199")) (smsBody Scenario.env)).
  vm_compute; auto.
Defined.

(** The transcription of the first event fails. *)
Lemma failed_transcription_ends_the_event :
  exists s',
    resume Scenario.env 0 Scenario.tuesdayNoon
      (failure AwaitTranscription (lit "Request failed with status code 429"))
      (onMessage (open Scenario.env) Scenario.audio1) = Some s'
    /\ logged s'
       = logged (onMessage (open Scenario.env) Scenario.audio1)
         ++ [ErrorProcessingMedia (lit "Request failed with status code 429")]
    /\ conversation s' = conversation (onMessage (open Scenario.env) Scenario.audio1)
    /\ sent s' = sent (onMessage (open Scenario.env) Scenario.audio1)
    /\ calls s' = calls (onMessage (open Scenario.env) Scenario.audio1)
    /\ escaped s' = escaped (onMessage (open Scenario.env) Scenario.audio1)
    /\ callActive s' = callActive (onMessage (open Scenario.env) Scenario.audio1)
    /\ awaiting 0 (pending s') = None.
Proof.
  exact (remote_failure_ends_the_event Scenario.env 0 Scenario.tuesdayNoon
           AwaitTranscription (lit "Request failed with status code 429")
           (onMessage (open Scenario.env) Scenario.audio1)
           eq_refl (or_introl eq_refl)).
Defined.


End CallFacts.
